(** * CONLL-U pipeline (lab_6_pipeline/pipeline.py): a shallow embedding

    Python [str] values are lists of Unicode code points, exceptions are an
    explicit result type, dictionaries are insertion-ordered association
    lists, and the loops of [_process] thread the analyzer cursor
    [number_of_words] explicitly. *)

From Stdlib Require Import Ascii String DecimalString.
From Stdlib Require Import List NArith ZArith Bool Arith Lia.
From Stdlib Require Import Permutation Sorted.
Import ListNotations.

Set Implicit Arguments.

(** ** Strings *)

Definition char := N.
Definition str := list char.

(** A literal, written in UTF-8 as in the source file, denotes the sequence of
    its code points (one to three bytes each are decoded). *)
Fixpoint utf8_decode (bytes : list N) : str :=
  match bytes with
  | [] => []
  | b :: rest =>
      if N.ltb b 128 then b :: utf8_decode rest
      else if N.ltb b 224 then
        match rest with
        | b2 :: rest' => ((b - 192) * 64 + (b2 - 128))%N :: utf8_decode rest'
        | [] => []
        end
      else
        match rest with
        | b2 :: b3 :: rest' =>
            ((b - 224) * 4096 + (b2 - 128) * 64 + (b3 - 128))%N :: utf8_decode rest'
        | _ => []
        end
  end.

Definition lit (s : String.string) : str :=
  utf8_decode (map Ascii.N_of_ascii (String.list_ascii_of_string s)).
Arguments lit s%_string.

Fixpoint str_eqb (a b : str) : bool :=
  match a, b with
  | [], [] => true
  | x :: a', y :: b' => N.eqb x y && str_eqb a' b'
  | _, _ => false
  end.

(** Python compares strings code point by code point. *)
Fixpoint str_ltb (a b : str) : bool :=
  match a, b with
  | _, [] => false
  | [], _ :: _ => true
  | x :: a', y :: b' => N.ltb x y || (N.eqb x y && str_ltb a' b')
  end.

Definition str_leb (a b : str) : bool := negb (str_ltb b a).

(** [sep.join(parts)] *)
Fixpoint join (sep : str) (parts : list str) : str :=
  match parts with
  | [] => []
  | [p] => p
  | p :: rest => p ++ sep ++ join sep rest
  end.

(** [str(n)] for a non-negative [int]. *)
Definition str_of_nat (n : nat) : str :=
  lit (DecimalString.NilEmpty.string_of_uint (Nat.to_uint n)).

(** ** The interpreter's character database

    [str.isalnum], [str.isdigit], [str.lower], [str.strip], [int] and the
    classes [\w], [\s], [\d] of [re] all read CPython's Unicode tables, which
    are not part of the repository: they are an interface here. *)
Class Unicode := {
  isalnum_c : char -> bool;          (* Py_UNICODE_ISALNUM *)
  isdigit_c : char -> bool;          (* Py_UNICODE_ISDIGIT *)
  todecimal : char -> option N;      (* Py_UNICODE_TODECIMAL; [\d] is "defined" *)
  isspace_c : char -> bool;          (* Py_UNICODE_ISSPACE *)
  lower : str -> str                 (* str.lower *)
}.

Section Text.
Context {U : Unicode}.

(** [s.isalnum()], [s.isdigit()]: every character, and at least one. *)
Definition isalnum (s : str) : bool :=
  match s with [] => false | _ => forallb isalnum_c s end.

Definition isdigit (s : str) : bool :=
  match s with [] => false | _ => forallb isdigit_c s end.

(** [\w]: alphanumeric or the underscore. *)
Definition is_w (c : char) : bool := isalnum_c c || N.eqb c 95.
Definition is_W (c : char) : bool := negb (is_w c).
Definition is_d (c : char) : bool :=
  match todecimal c with Some _ => true | None => false end.

(** [re.findall(p+, s)]: the maximal runs of [p], left to right.  [cur] is
    the run being read, most recent character first. *)
Definition flush (cur : str) : list str :=
  match cur with [] => [] | _ => [rev cur] end.

Fixpoint findall_from (p : char -> bool) (s cur : str) : list str :=
  match s with
  | [] => flush cur
  | c :: s' =>
      if p c then findall_from p s' (c :: cur)
      else flush cur ++ findall_from p s' []
  end.

Definition findall (p : char -> bool) (s : str) : list str :=
  findall_from p s [].

(** [re.match(p+, s)]: the run of [p] at the start, [None] when empty. *)
Fixpoint take_while (p : char -> bool) (s : str) : str :=
  match s with
  | c :: s' => if p c then c :: take_while p s' else []
  | [] => []
  end.

Fixpoint drop_while (p : char -> bool) (s : str) : str :=
  match s with
  | c :: s' => if p c then drop_while p s' else s
  | [] => []
  end.

Definition re_match (p : char -> bool) (s : str) : option str :=
  match take_while p s with [] => None | m => Some m end.

(** [re.sub(p+, rep, s)]: every maximal run of [p] becomes one [rep]. *)
Fixpoint sub_from (p : char -> bool) (rep s : str) (in_run : bool) : str :=
  match s with
  | [] => []
  | c :: s' =>
      if p c then (if in_run then [] else rep) ++ sub_from p rep s' true
      else c :: sub_from p rep s' false
  end.

Definition re_sub (p : char -> bool) (rep s : str) : str :=
  sub_from p rep s false.

(** [s.strip()] *)
Definition lstrip (s : str) : str := drop_while isspace_c s.
Definition rstrip (s : str) : str := rev (drop_while isspace_c (rev s)).
Definition strip (s : str) : str := rstrip (lstrip s).

(** [s.split(sep)[0]] for a one-character separator. *)
Definition split_first (sep : char) (s : str) : str :=
  take_while (fun c => negb (N.eqb c sep)) s.
End Text.

(** ** Exceptions *)

Inductive exn : Type :=
| IndexError
| KeyError
| TypeError
| ValueError
| FileNotFoundError
| NotADirectoryError
| EmptyDirectoryError
| InconsistentDatasetError (message : option String.string).

Inductive Py (A : Type) : Type :=
| Returns (a : A)
| Raises (e : exn).
Arguments Returns {A} a.
Arguments Raises {A} e.

Definition bind {A B} (m : Py A) (k : A -> Py B) : Py B :=
  match m with
  | Returns a => k a
  | Raises e => Raises e
  end.

Declare Scope py_scope.
Delimit Scope py_scope with py.
Notation "x <- m ;; k" := (bind m (fun x => k))
  (at level 61, m at next level, right associativity) : py_scope.
Notation "' pat <- m ;; k" := (bind m (fun x => match x with pat => k end))
  (at level 61, pat pattern, m at next level, right associativity) : py_scope.
Open Scope py_scope.

(** [l[i]] on a list, for an index that is never negative. *)
Definition getitem {A} (l : list A) (i : nat) : Py A :=
  match nth_error l i with
  | Some a => Returns a
  | None => Raises IndexError
  end.

(** [x[0]] where [x] may be [None]. *)
Definition subscript_match (m : option str) : Py str :=
  match m with
  | Some s => Returns s
  | None => Raises TypeError
  end.

(** ** Dictionaries, in insertion order *)

Definition dict (V : Type) := list (str * V).

Fixpoint dict_get {V} (d : dict V) (k : str) : option V :=
  match d with
  | [] => None
  | (k', v) :: d' => if str_eqb k k' then Some v else dict_get d' k
  end.

Definition dict_mem {V} (d : dict V) (k : str) : bool :=
  match dict_get d k with Some _ => true | None => false end.

(** [d[k] = v]: an existing key keeps its place. *)
Fixpoint dict_set {V} (d : dict V) (k : str) (v : V) : dict V :=
  match d with
  | [] => [(k, v)]
  | (k', v') :: d' =>
      if str_eqb k k' then (k', v) :: d' else (k', v') :: dict_set d' k v
  end.

(** [d[k]] *)
Definition lookup {V} (d : dict V) (k : str) : Py V :=
  match dict_get d k with
  | Some v => Returns v
  | None => Raises KeyError
  end.

Definition keys {V} (d : dict V) : list str := map fst d.

(** [sorted(d.items())]: pairs are compared as tuples, key first. *)
Definition item_leb (a b : str * str) : bool :=
  str_ltb (fst a) (fst b) || (str_eqb (fst a) (fst b) && str_leb (snd a) (snd b)).

Fixpoint insert_item (x : str * str) (l : list (str * str)) : list (str * str) :=
  match l with
  | [] => [x]
  | y :: l' => if item_leb x y then x :: l else y :: insert_item x l'
  end.

Fixpoint sorted_items (l : list (str * str)) : list (str * str) :=
  match l with
  | [] => []
  | x :: l' => insert_item x (sorted_items l')
  end.

(** ['|'.join(f'{k}={v}' for k, v in items)] *)
Definition key_value (kv : str * str) : str := fst kv ++ lit "=" ++ snd kv.
Definition render_items (items : list (str * str)) : str :=
  join (lit "|") (map key_value items).

(** ** Data model *)

Module MorphologicalTokenDTO.
(** [pos] is [None] when the OpenCorpora converter found no part of speech. *)
Record t := make { lemma : str; pos : option str; tags : str }.

(** [MorphologicalTokenDTO()] *)
Definition default : t := make [] (Some []) [].
End MorphologicalTokenDTO.

Module ConlluToken.
Import MorphologicalTokenDTO.

Record t := make {
  _text : str;
  _morphological_parameters : MorphologicalTokenDTO.t;
  _position : option nat
}.

(** [ConlluToken(text)] *)
Definition init (text : str) : t := make text MorphologicalTokenDTO.default None.

Definition set_morphological_parameters (self : t) (parameters : MorphologicalTokenDTO.t) : t :=
  make (_text self) parameters (_position self).

Definition set_position (self : t) (position : nat) : t :=
  make (_text self) (_morphological_parameters self) (Some position).

(** [str(self._position)] *)
Definition str_position (p : option nat) : str :=
  match p with
  | Some n => str_of_nat n
  | None => lit "None"
  end.

(** The ten fields that [get_conllu_text] joins with a tab. *)
Definition conllu_fields (self : t) (include_morphological_tags : bool) : list str :=
  let pos :=
    match pos (_morphological_parameters self) with
    | None => lit "X"
    | Some p => p
    end in
  let feats :=
    if include_morphological_tags then
      match tags (_morphological_parameters self) with
      | [] => lit "_"
      | ts => ts
      end
    else lit "_" in
  [str_position (_position self); _text self;
   lemma (_morphological_parameters self); pos; lit "_"; feats;
   lit "0"; lit "root"; lit "_"; lit "_"].

Definition get_conllu_text (self : t) (include_morphological_tags : bool) : str :=
  join [9%N] (conllu_fields self include_morphological_tags).

Definition get_cleaned {U : Unicode} (self : t) : str :=
  lower (re_sub is_W [] (_text self)).
End ConlluToken.

Module ConlluSentence.
Record t := make {
  _position : nat;
  _text : str;
  _tokens : list ConlluToken.t
}.

Definition _format_tokens (self : t) (include_morphological_tags : bool) : str :=
  join [10%N]
    (map (fun token => ConlluToken.get_conllu_text token include_morphological_tags)
         (_tokens self)).

Definition get_conllu_text (self : t) (include_morphological_tags : bool) : str :=
  lit "# sent_id = " ++ str_of_nat (_position self) ++ [10%N] ++
  lit "# text = " ++ _text self ++ [10%N] ++
  _format_tokens self include_morphological_tags ++ [10%N].

Definition get_cleaned_sentence {U : Unicode} (self : t) : str :=
  let cleaned_sentence := join (lit " ") (map ConlluToken.get_cleaned (_tokens self)) in
  strip (re_sub isspace_c (lit " ") cleaned_sentence).

Definition get_tokens (self : t) : list ConlluToken.t := _tokens self.
End ConlluSentence.

(** ** Tag converters *)

(** The base class [core_utils.article.ud.TagConverter] is imported, not
    defined, by pipeline.py: the category names it declares and the mapping
    it loads from JSON are fields here. *)
Module TagConverter.
Record t := make {
  pos : str;
  case : str;
  number : str;
  gender : str;
  animacy : str;
  tense : str;
  _tag_mapping : dict (dict str)
}.
End TagConverter.

Module MystemTagConverter.
Import TagConverter.

(** [[а-я]]: U+0430 to U+044F. *)
Definition is_a_ya (c : char) : bool := N.leb 1072 c && N.leb c 1103.

Definition categories (self : t) : list str :=
  [case self; number self; gender self; animacy self; tense self].

(** The inner [for category in (...)] with its [break]. *)
Fixpoint assign_tag (self : t) (tag : str) (cats : list str) (ud_tags : dict str)
  : Py (dict str) :=
  match cats with
  | [] => Returns ud_tags
  | category :: rest =>
      table <- lookup (_tag_mapping self) category ;;
      if dict_mem table tag && negb (dict_mem ud_tags category) then
        v <- lookup table tag ;;
        Returns (dict_set ud_tags category v)
      else assign_tag self tag rest ud_tags
  end.

(** The outer [for tag in extracted_tags]. *)
Fixpoint assign_tags (self : t) (extracted_tags : list str) (ud_tags : dict str)
  : Py (dict str) :=
  match extracted_tags with
  | [] => Returns ud_tags
  | tag :: rest =>
      ud_tags' <- assign_tag self tag (categories self) ud_tags ;;
      assign_tags self rest ud_tags'
  end.

Definition ud_tags_of {U : Unicode} (self : t) (tags : str) : Py (dict str) :=
  assign_tags self (findall is_a_ya tags) [].

Definition convert_morphological_tags {U : Unicode} (self : t) (tags : str) : Py str :=
  ud_tags <- ud_tags_of self tags ;;
  Returns (render_items (sorted_items ud_tags)).

Definition convert_pos {U : Unicode} (self : t) (tags : str) : Py str :=
  pos <- subscript_match (re_match is_w tags) ;;
  table <- lookup (_tag_mapping self) (TagConverter.pos self) ;;
  lookup table pos.
End MystemTagConverter.

(** [OpencorporaTagProtocol]: the named fields of a pymorphy2 tag. *)
Module OpencorporaTag.
Record t := make {
  POS : option str;
  animacy : option str;
  case : option str;
  gender : option str;
  number : option str
}.
End OpencorporaTag.

Module OpenCorporaTagConverter.
Import TagConverter.

(** Falls off the end, returning [None], when [tags.POS] is [None]. *)
Definition convert_pos (self : t) (tags : OpencorporaTag.t) : Py (option str) :=
  match OpencorporaTag.POS tags with
  | Some p =>
      table <- lookup (_tag_mapping self) (pos self) ;;
      v <- lookup table p ;;
      Returns (Some v)
  | None => Returns None
  end.

Definition lst (self : t) (tags : OpencorporaTag.t) : list (str * option str) :=
  [(animacy self, OpencorporaTag.animacy tags);
   (case self, OpencorporaTag.case tags);
   (gender self, OpencorporaTag.gender tags);
   (number self, OpencorporaTag.number tags)].

Fixpoint fill (self : t) (l : list (str * option str)) (ud_tags : dict str)
  : Py (dict str) :=
  match l with
  | [] => Returns ud_tags
  | (k, Some v) :: rest =>
      table <- lookup (_tag_mapping self) k ;;
      v' <- lookup table v ;;
      fill self rest (dict_set ud_tags k v')
  | (_, None) :: rest => fill self rest ud_tags
  end.

Definition ud_tags_of (self : t) (tags : OpencorporaTag.t) : Py (dict str) :=
  fill self (lst self tags) [].

Definition convert_morphological_tags (self : t) (tags : OpencorporaTag.t) : Py str :=
  ud_tags <- ud_tags_of self tags ;;
  Returns (render_items ud_tags).
End OpenCorporaTagConverter.

(** ** The analyzers (external) *)

(** One element of [Mystem().analyze(...)]: a dict with the key ['text'] and,
    for words, the key ['analysis'] holding dicts with ['lex'] and ['gr']. *)
Module Mystem.
Record Analysis := { lex : str; gr : str }.
Record Entry := { text : str; analysis : option (list Analysis) }.
End Mystem.

(** One element of [pymorphy2.MorphAnalyzer().parse(word)]. *)
Module Pymorphy.
Record Parse := { normal_form : str; tag : OpencorporaTag.t }.
End Pymorphy.

(** [core_utils.article.article.split_by_sentence], imported by pipeline.py. *)
Class CoreUtils := { split_by_sentence : str -> list str }.

(** ** The alignment loops

    Both [_process] methods run the same two nested loops and differ in the
    branch that handles an entry with analyses; the loops take that branch as
    [classify]. *)
Section Alignment.
Context {U : Unicode} {C : CoreUtils}.
Variable classify : Mystem.Entry -> Py MorphologicalTokenDTO.t.

(** Lines 278-280 (350-352): [if not result[c]['text'].isalnum(): c += 1],
    then [result[c]].  Returns the entry and the cursor it was read at. *)
Definition take_entry (result : list Mystem.Entry) (number_of_words : nat)
  : Py (Mystem.Entry * nat) :=
  first <- getitem result number_of_words ;;
  let number_of_words :=
    if negb (isalnum (Mystem.text first)) then number_of_words + 1
    else number_of_words in
  analyzed_content <- getitem result number_of_words ;;
  Returns (analyzed_content, number_of_words).

(** [for i, word in enumerate(words, 1)] *)
Fixpoint words_loop (result : list Mystem.Entry) (words : list str) (i : nat)
    (tokens : list ConlluToken.t) (number_of_words : nat)
  : Py (list ConlluToken.t * nat) :=
  match words with
  | [] => Returns (tokens, number_of_words)
  | _ :: rest =>
      '(analyzed_content, number_of_words) <- take_entry result number_of_words ;;
      let original_word := Mystem.text analyzed_content in
      parameters <- classify analyzed_content ;;
      let conllu_token := ConlluToken.init original_word in
      let conllu_token := ConlluToken.set_morphological_parameters conllu_token parameters in
      let conllu_token := ConlluToken.set_position conllu_token i in
      words_loop result rest (S i) (tokens ++ [conllu_token]) (number_of_words + 1)
  end.

(** The synthetic token appended after the words of a sentence. *)
Definition terminal_token (position : nat) : ConlluToken.t :=
  let conllu_token := ConlluToken.init (lit ".") in
  let conllu_token :=
    ConlluToken.set_morphological_parameters conllu_token
      (MorphologicalTokenDTO.make (lit ".") (Some (lit "PUNCT")) []) in
  ConlluToken.set_position conllu_token position.

(** [for ind, sentence in enumerate(split_by_sentence(text))] *)
Fixpoint sentences_loop (result : list Mystem.Entry) (sentences : list str) (ind : nat)
    (conllu_sentences : list ConlluSentence.t) (number_of_words : nat)
  : Py (list ConlluSentence.t) :=
  match sentences with
  | [] => Returns conllu_sentences
  | sentence :: rest =>
      let words := findall is_w sentence in
      '(tokens, number_of_words) <- words_loop result words 1 [] number_of_words ;;
      let tokens := tokens ++ [terminal_token (length words + 1)] in
      let conllu_sentence := ConlluSentence.make ind sentence tokens in
      sentences_loop result rest (S ind) (conllu_sentences ++ [conllu_sentence])
        number_of_words
  end.

Definition process (analyze : str -> list Mystem.Entry) (text : str)
  : Py (list ConlluSentence.t) :=
  let result := analyze (re_sub is_W (lit " ") text) in
  sentences_loop result (split_by_sentence text) 0 [] 0.
End Alignment.

Module MorphologicalAnalysisPipeline.
Record t := make {
  _analyzer : str -> list Mystem.Entry;
  _tag_converter : TagConverter.t
}.

Section Methods.
Context {U : Unicode} {C : CoreUtils}.

(** Lines 282-294. *)
Definition classify (self : t) (analyzed_content : Mystem.Entry)
  : Py MorphologicalTokenDTO.t :=
  match Mystem.analysis analyzed_content with
  | Some (best :: _) =>
      let lemma := Mystem.lex best in
      let morph_tags := Mystem.gr best in
      pos <- MystemTagConverter.convert_pos (_tag_converter self) morph_tags ;;
      tags <- MystemTagConverter.convert_morphological_tags (_tag_converter self) morph_tags ;;
      Returns (MorphologicalTokenDTO.make lemma (Some pos) tags)
  | _ =>
      if isdigit (Mystem.text analyzed_content) then
        Returns (MorphologicalTokenDTO.make (Mystem.text analyzed_content)
                   (Some (lit "NUM")) [])
      else
        Returns (MorphologicalTokenDTO.make (Mystem.text analyzed_content)
                   (Some (lit "X")) [])
  end.

Definition _process (self : t) (text : str) : Py (list ConlluSentence.t) :=
  process (classify self) (_analyzer self) text.
End Methods.
End MorphologicalAnalysisPipeline.

Module AdvancedMorphologicalAnalysisPipeline.
Record t := make {
  base : MorphologicalAnalysisPipeline.t;
  _backup_tag_converter : TagConverter.t;
  _backup_analyzer : str -> list Pymorphy.Parse
}.

Definition _analyzer (self : t) := MorphologicalAnalysisPipeline._analyzer (base self).
Definition _tag_converter (self : t) :=
  MorphologicalAnalysisPipeline._tag_converter (base self).

Section Methods.
Context {U : Unicode} {C : CoreUtils}.

(** Lines 358-361: the NOUN branch. *)
Definition escalate (self : t) (analyzed_content : Mystem.Entry)
  : Py MorphologicalTokenDTO.t :=
  first <- getitem (_backup_analyzer self (Mystem.text analyzed_content)) 0 ;;
  let lemma := Pymorphy.normal_form first in
  first' <- getitem (_backup_analyzer self (Mystem.text analyzed_content)) 0 ;;
  let all_tags := Pymorphy.tag first' in
  pos <- OpenCorporaTagConverter.convert_pos (_backup_tag_converter self) all_tags ;;
  tags <- OpenCorporaTagConverter.convert_morphological_tags
            (_backup_tag_converter self) all_tags ;;
  Returns (MorphologicalTokenDTO.make lemma pos tags).

(** Lines 354-372. *)
Definition classify (self : t) (analyzed_content : Mystem.Entry)
  : Py MorphologicalTokenDTO.t :=
  match Mystem.analysis analyzed_content with
  | Some (best :: _) =>
      let morph_tags := Mystem.gr best in
      pos <- MystemTagConverter.convert_pos (_tag_converter self) morph_tags ;;
      if str_eqb pos (lit "NOUN") then escalate self analyzed_content
      else
        let lemma := Mystem.lex best in
        tags <- MystemTagConverter.convert_morphological_tags
                  (_tag_converter self) morph_tags ;;
        Returns (MorphologicalTokenDTO.make lemma (Some pos) tags)
  | _ =>
      if isdigit (Mystem.text analyzed_content) then
        Returns (MorphologicalTokenDTO.make (Mystem.text analyzed_content)
                   (Some (lit "NUM")) [])
      else
        Returns (MorphologicalTokenDTO.make (Mystem.text analyzed_content)
                   (Some (lit "X")) [])
  end.

Definition _process (self : t) (text : str) : Py (list ConlluSentence.t) :=
  process (classify self) (_analyzer self) text.
End Methods.
End AdvancedMorphologicalAnalysisPipeline.

(** ** Dataset validation *)

(** [int(s)]: surrounding whitespace is ignored, one sign is allowed, and the
    digits may be grouped by single underscores. *)
Section IntOfStr.
Context {U : Unicode}.

Fixpoint int_digits (s : str) (acc : N) (after_digit : bool) : option N :=
  match s with
  | [] => if after_digit then Some acc else None
  | c :: s' =>
      match todecimal c with
      | Some d => int_digits s' (10 * acc + d)%N true
      | None =>
          if N.eqb c 95 && after_digit then int_digits s' acc false else None
      end
  end.

Definition int_signed (s : str) : option Z :=
  match s with
  | c :: r =>
      if N.eqb c 43 then option_map Z.of_N (int_digits r 0 false)
      else if N.eqb c 45 then
        option_map (fun n => Z.opp (Z.of_N n)) (int_digits r 0 false)
      else option_map Z.of_N (int_digits s 0 false)
  | [] => None
  end.

(** The whitespace [int] skips at both ends: that of [str.strip] except the
    four separators U+001C-U+001F, which [int] does not accept. *)
Definition int_space (c : char) : bool :=
  isspace_c c && negb (N.leb 28 c && N.leb c 31).

Definition int_strip (s : str) : str :=
  rev (drop_while int_space (rev (drop_while int_space s))).

Definition int (s : str) : Py Z :=
  match int_signed (int_strip s) with
  | Some z => Returns z
  | None => Raises ValueError
  end.
End IntOfStr.

(** [sorted] on integers. *)
Fixpoint insert_int (x : Z) (l : list Z) : list Z :=
  match l with
  | [] => [x]
  | y :: l' => if Z.leb x y then x :: l else y :: insert_int x l'
  end.

Fixpoint sorted_ints (l : list Z) : list Z :=
  match l with
  | [] => []
  | x :: l' => insert_int x (sorted_ints l')
  end.

(** [list(range(1, n + 1))] *)
Definition range1 (n : nat) : list Z := map Z.of_nat (seq 1 n).

Fixpoint ints_eqb (a b : list Z) : bool :=
  match a, b with
  | [], [] => true
  | x :: a', y :: b' => Z.eqb x y && ints_eqb a' b'
  | _, _ => false
  end.

(** [[f(x) for x in l]] where [f] may raise. *)
Fixpoint comprehension {A B} (f : A -> Py B) (l : list A) : Py (list B) :=
  match l with
  | [] => Returns []
  | x :: l' => y <- f x ;; ys <- comprehension f l' ;; Returns (y :: ys)
  end.

Module CorpusManager.
(** What [_validate_dataset] reads of [self.path_to_raw_txt_data]. *)
Record File := { name : str; st_size : N }.
Record Path := { exists_ : bool; is_dir : bool; entries : list File }.

Definition endswith (suffix s : str) : bool :=
  str_eqb (skipn (List.length s - List.length suffix) s) suffix.

(** [path.glob("*" + suffix)] *)
Definition glob (path : Path) (suffix : str) : list File :=
  filter (fun f => endswith suffix (name f)) (entries path).

Section Methods.
Context {U : Unicode}.

(** [int(re.match(r'\d+', file.name)[0])] *)
Definition id_by_match (file : File) : Py Z :=
  digits <- subscript_match (re_match is_d (name file)) ;;
  int digits.

(** [int(file.name.split("_")[0])] *)
Definition id_by_split (file : File) : Py Z :=
  int (split_first 95%N (name file)).

(** [if cond: raise e] *)
Definition raise_if (cond : bool) (e : exn) : Py unit :=
  if cond then Raises e else Returns tt.

(** The message of the last error also lists the empty files; the listing
    is left out of the message here. *)
Definition _validate_dataset (path : Path) : Py unit :=
  _ <- raise_if (negb (exists_ path)) FileNotFoundError ;;
  _ <- raise_if (negb (is_dir path)) NotADirectoryError ;;
  let meta_files := glob path (lit "_meta.json") in
  metas <- comprehension id_by_match meta_files ;;
  let metas_order := sorted_ints metas in
  _ <- raise_if (negb (ints_eqb metas_order (range1 (List.length meta_files))))
         (InconsistentDatasetError None) ;;
  let raw_files := glob path (lit "_raw.txt") in
  raws <- comprehension id_by_match raw_files ;;
  let raw_order := sorted_ints raws in
  _ <- raise_if (negb (ints_eqb raw_order (range1 (List.length raw_files))))
         (InconsistentDatasetError None) ;;
  _ <- raise_if (negb (Nat.eqb (List.length meta_files) (List.length raw_files)))
         (InconsistentDatasetError (Some "Number of meta and raw files is not equal"%string)) ;;
  _ <- raise_if (match meta_files, raw_files with
                 | [], _ | _, [] => true
                 | _, _ => false
                 end) EmptyDirectoryError ;;
  file_ids <- comprehension id_by_split raw_files ;;
  _ <- raise_if (negb (Nat.eqb (List.length file_ids)
                               (List.length (nodup Z.eq_dec file_ids))))
         (InconsistentDatasetError (Some "IDs contain duplicates"%string)) ;;
  let empty_files := filter (fun file => N.eqb (st_size file) 0) raw_files in
  raise_if (match empty_files with [] => false | _ => true end)
    (InconsistentDatasetError (Some "The following files are empty"%string)).
End Methods.
End CorpusManager.

(** ** A character database to run the definitions on

    It agrees with CPython's tables on Basic Latin, on the Russian letters
    U+0401, U+0410-U+044F, U+0451, on U+0130 (capital I with dot above, whose
    lowercase is the two code points U+0069 U+0307), on the combining dot
    U+0307 (a mark: neither alphanumeric nor space) and on the whitespace
    U+0085 and U+00A0.  Every other code point is treated as a caseless
    symbol. *)
Module Sample.
Definition between (lo hi c : N) : bool := N.leb lo c && N.leb c hi.

Definition alnum (c : char) : bool :=
  between 48 57 c || between 65 90 c || between 97 122 c
  || between 1040 1103 c || N.eqb c 1025 || N.eqb c 1105 || N.eqb c 304.

Definition digit (c : char) : bool := between 48 57 c.

Definition decimal (c : char) : option N :=
  if between 48 57 c then Some (c - 48)%N else None.

Definition space (c : char) : bool :=
  between 9 13 c || between 28 32 c || N.eqb c 133 || N.eqb c 160.

Definition lower_c (c : char) : str :=
  if between 65 90 c then [(c + 32)%N]
  else if between 1040 1071 c then [(c + 32)%N]
  else if N.eqb c 1025 then [1105%N]
  else if N.eqb c 304 then [105%N; 775%N]
  else [c].

Definition lower_s (s : str) : str := flat_map lower_c s.

#[export] Instance unicode : Unicode := {
  isalnum_c := alnum;
  isdigit_c := digit;
  todecimal := decimal;
  isspace_c := space;
  lower := lower_s
}.

(** A splitter that ends a sentence after every full stop. *)
Fixpoint split_from (s cur : str) : list str :=
  match s with
  | [] => flush cur
  | c :: s' =>
      if N.eqb c 46 then rev (c :: cur) :: split_from s' []
      else
        match cur, space c with
        | [], true => split_from s' []
        | _, _ => split_from s' (c :: cur)
        end
  end.

#[export] Instance core_utils : CoreUtils := {
  split_by_sentence := fun text => split_from text []
}.
End Sample.

(** ** Notions the statements below are phrased in *)

Section Notions.
Context {U : Unicode}.

(** The cursor step as the specification words it: "while the entry at
    cursor c is not purely alphanumeric, advance c by 1 and discard the
    entry; then take the entry at c".  [entries] is the stream from the
    cursor on. *)
Fixpoint skip_noise (entries : list Mystem.Entry) (c : nat) : Py (Mystem.Entry * nat) :=
  match entries with
  | [] => Raises IndexError
  | e :: rest =>
      if isalnum (Mystem.text e) then Returns (e, c) else skip_noise rest (S c)
  end.

Definition take_entry_spec (result : list Mystem.Entry) (c : nat)
  : Py (Mystem.Entry * nat) :=
  skip_noise (skipn c result) c.

(** The cursor leaves the stream while [n] more words are to be served. *)
Fixpoint runs_out (result : list Mystem.Entry) (n c : nat) : bool :=
  match n with
  | 0 => false
  | S n' =>
      match take_entry result c with
      | Raises _ => true
      | Returns (_, c') => runs_out result n' (c' + 1)
      end
  end.

(** The number of words of all sentences. *)
Definition word_count (sentence : str) : nat := List.length (findall is_w sentence).
Definition total_words (sentences : list str) : nat :=
  list_sum (map word_count sentences).

(** A marker is registered under a category of the mapping. *)
Definition registered (self : TagConverter.t) (category tag : str) : bool :=
  match dict_get (TagConverter._tag_mapping self) category with
  | Some table => dict_mem table tag
  | None => false
  end.

Definition mapped (self : TagConverter.t) (category tag : str) : option str :=
  match dict_get (TagConverter._tag_mapping self) category with
  | Some table => dict_get table tag
  | None => None
  end.

(** The first category, in priority order, under which the marker is
    registered and which holds no value yet. *)
Definition first_eligible (self : TagConverter.t) (ud_tags : dict str) (tag : str)
  : option str :=
  find (fun category => registered self category tag && negb (dict_mem ud_tags category))
       (MystemTagConverter.categories self).

(** The mapping has a table for each of the five feature categories. *)
Definition has_categories (self : TagConverter.t) : Prop :=
  forall category, In category (MystemTagConverter.categories self) ->
    dict_get (TagConverter._tag_mapping self) category <> None.

(** No part of speech of the mapping is the empty string. *)
Definition pos_values_nonempty (self : TagConverter.t) : Prop :=
  forall tag, mapped self (TagConverter.pos self) tag <> Some [].

Definition str_lt (a b : str) : Prop := str_ltb a b = true.

(** The token built at lines 295-297 from a taken entry, the parameters
    computed for it and the word index. *)
Definition token_of (i : nat) (served : Mystem.Entry * MorphologicalTokenDTO.t)
  : ConlluToken.t :=
  ConlluToken.make (Mystem.text (fst served)) (snd served) (Some i).

Fixpoint tokens_from (i : nat) (served : list (Mystem.Entry * MorphologicalTokenDTO.t))
  : list ConlluToken.t :=
  match served with
  | [] => []
  | ed :: rest => token_of i ed :: tokens_from (S i) rest
  end.
End Notions.

(** Order of two items by their keys alone. *)
Definition key_le (a b : str * str) : Prop := str_ltb (fst b) (fst a) = false.

(** The names of the four categories the OpenCorpora converter reads come in
    alphabetical order (as "Animacy", "Case", "Gender", "Number" do). *)
Definition alphabetical_names (self : TagConverter.t) : Prop :=
  str_lt (TagConverter.animacy self) (TagConverter.case self)
  /\ str_lt (TagConverter.case self) (TagConverter.gender self)
  /\ str_lt (TagConverter.gender self) (TagConverter.number self).

Section CleaningNotions.
Context {U : Unicode}.

(** A token whose text is the cleaned text of [token]. *)
Definition cleaned_token (token : ConlluToken.t) : ConlluToken.t :=
  ConlluToken.init (ConlluToken.get_cleaned token).

(** The cleaned text holds word characters only and lowercasing leaves it
    as it is. *)
Definition settled (token : ConlluToken.t) : Prop :=
  forallb is_w (ConlluToken.get_cleaned token) = true
  /\ lower (ConlluToken.get_cleaned token) = ConlluToken.get_cleaned token.

(** The text of the token holds no U+0130 (capital I with dot above). *)
Definition dotless (token : ConlluToken.t) : Prop :=
  ~ In 304%N (ConlluToken._text token).

(** What the tables must say of [str.lower] on a string of word characters
    without U+0130: its lowercase holds word characters only, and
    lowercasing that again changes nothing. *)
Definition lowercase_tame : Prop :=
  forall s, forallb is_w s = true -> ~ In 304%N s ->
    forallb is_w (lower s) = true /\ lower (lower s) = lower s.

(** No whitespace at the start. *)
Definition head_nonspace (s : str) : bool :=
  match s with
  | [] => true
  | c :: _ => negb (isspace_c c)
  end.

(** Every whitespace character is a single space followed by none. *)
Fixpoint collapsed (s : str) : bool :=
  match s with
  | [] => true
  | c :: s' =>
      (if isspace_c c then N.eqb c 32 && head_nonspace s' else true) && collapsed s'
  end.
End CleaningNotions.

Section DatasetNotions.
Context {U : Unicode}.

(** The number written by a string of decimal digits, continuing [acc]. *)
Fixpoint digits_value (s : str) (acc : N) : N :=
  match s with
  | [] => acc
  | c :: s' =>
      match todecimal c with
      | Some d => digits_value s' (10 * acc + d)%N
      | None => acc
      end
  end.

(** The number a file name starts with. *)
Definition leading_id (file : CorpusManager.File) : Z :=
  Z.of_N (digits_value (take_while is_d (CorpusManager.name file)) 0).

(** What the tables must say of the characters [int] treats specially: the
    underscore and the two signs are not digits, and no digit is whitespace. *)
Definition digits_apart : Prop :=
  todecimal 95%N = None /\ todecimal 43%N = None /\ todecimal 45%N = None
  /\ forall c, is_d c = true -> isspace_c c = false.
End DatasetNotions.

Section LoopNotions.
Context {U : Unicode}.
Variable classify : Mystem.Entry -> Py MorphologicalTokenDTO.t.

(** The entries of [result] all classify without an exception. *)
Definition classifies (result : list Mystem.Entry) : Prop :=
  forall entry, In entry result -> exists d, classify entry = Returns d.

(** The shape of what [process] returns: sentence [k] of the splitter gives
    the [k]-th output sentence, whose tokens are one per word followed by
    the terminal token. *)
Definition sentence_shape (result : list Mystem.Entry) (ind : nat) (sentence : str)
    (out : ConlluSentence.t) : Prop :=
  exists served,
    List.length served = word_count sentence
    /\ Forall (fun ed => In (fst ed) result /\ classify (fst ed) = Returns (snd ed)) served
    /\ out = ConlluSentence.make ind sentence
               (tokens_from 1 served ++ [terminal_token (word_count sentence + 1)]).

Inductive shaped (result : list Mystem.Entry) : nat -> list str -> list ConlluSentence.t -> Prop :=
| shaped_nil ind : shaped result ind [] []
| shaped_cons ind sentence sentences out outs :
    sentence_shape result ind sentence out ->
    shaped result (S ind) sentences outs ->
    shaped result ind (sentence :: sentences) (out :: outs).

(** Positions [1..word_count+1] without gaps, the last token being the
    synthetic full stop. *)
Definition well_numbered (sentence : str) (out : ConlluSentence.t) : Prop :=
  map ConlluToken._position (ConlluSentence._tokens out)
    = map Some (seq 1 (word_count sentence + 1))
  /\ exists body,
       List.length body = word_count sentence
       /\ ConlluSentence._tokens out =
            body ++ [ConlluToken.make (lit ".")
                       (MorphologicalTokenDTO.make (lit ".") (Some (lit "PUNCT")) [])
                       (Some (word_count sentence + 1))].

(** The record [get_conllu_text] produces for a token: ten fields joined by
    tabs, the fourth of which is the part of speech, never empty and equal
    to "X" when the token has none. *)
Definition renders_pos (token : ConlluToken.t) (include_morphological_tags : bool) : Prop :=
  let parameters := ConlluToken._morphological_parameters token in
  exists pos feats,
    ConlluToken.get_conllu_text token include_morphological_tags =
      join [9%N]
        [ConlluToken.str_position (ConlluToken._position token);
         ConlluToken._text token; MorphologicalTokenDTO.lemma parameters;
         pos; lit "_"; feats; lit "0"; lit "root"; lit "_"; lit "_"]
    /\ pos <> []
    /\ (MorphologicalTokenDTO.pos parameters = None -> pos = lit "X")
    /\ (forall p, MorphologicalTokenDTO.pos parameters = Some p -> pos = p)
    /\ feats = (if include_morphological_tags then
                  match MorphologicalTokenDTO.tags parameters with
                  | [] => lit "_"
                  | ts => ts
                  end
                else lit "_").
End LoopNotions.

(** ** Fixtures: small converters, analyzers and pipelines to run *)

Module Fixtures.
Import Sample.

Definition table (rows : list (String.string * String.string)) : dict str :=
  map (fun kv => (lit (fst kv), lit (snd kv))) rows.

(** The category names of the Universal Dependencies features. *)
Definition converter (mapping : dict (dict str)) : TagConverter.t :=
  TagConverter.make (lit "POS") (lit "Case") (lit "Number") (lit "Gender")
    (lit "Animacy") (lit "Tense") mapping.

Definition mystem_mapping : dict (dict str) :=
  [(lit "POS", table [("S", "NOUN"); ("V", "VERB"); ("A", "ADJ")]);
   (lit "Case", table [("им", "Nom"); ("род", "Gen"); ("вин", "Acc")]);
   (lit "Number", table [("ед", "Sing"); ("мн", "Plur")]);
   (lit "Gender", table [("муж", "Masc"); ("жен", "Fem"); ("сред", "Neut")]);
   (lit "Animacy", table [("од", "Anim"); ("неод", "Inan")]);
   (lit "Tense", table [("прош", "Past"); ("непрош", "Pres")])]%string.

Definition mystem_converter : TagConverter.t := converter mystem_mapping.

(** As above, with the marker "мн" also registered under Gender. *)
Definition ambiguous_converter : TagConverter.t :=
  converter
    [(lit "POS", table [("S", "NOUN")]);
     (lit "Case", table [("им", "Nom")]);
     (lit "Number", table [("ед", "Sing"); ("мн", "Plur")]);
     (lit "Gender", table [("муж", "Masc"); ("мн", "Neut")]);
     (lit "Animacy", table [("од", "Anim")]);
     (lit "Tense", table [("прош", "Past")])]%string.

Definition opencorpora_converter : TagConverter.t :=
  converter
    [(lit "POS", table [("NOUN", "NOUN"); ("VERB", "VERB")]);
     (lit "Case", table [("nomn", "Nom"); ("gent", "Gen")]);
     (lit "Number", table [("sing", "Sing"); ("plur", "Plur")]);
     (lit "Gender", table [("masc", "Masc"); ("femn", "Fem")]);
     (lit "Animacy", table [("anim", "Anim"); ("inan", "Inan")]);
     (lit "Tense", table [("past", "Past")])]%string.

Definition word (text lex gr : String.string) : Mystem.Entry :=
  {| Mystem.text := lit text;
     Mystem.analysis := Some [ {| Mystem.lex := lit lex; Mystem.gr := lit gr |} ] |}.

Definition noise (text : String.string) : Mystem.Entry :=
  {| Mystem.text := lit text; Mystem.analysis := None |}.

(** The stream of the scenario "Кот сидит." *)
Definition cat_sits : list Mystem.Entry :=
  [word "Кот" "кот" "S,муж,од=им,ед"; noise " ";
   word "сидит" "сидеть" "V,несов,нп=непрош,ед,изъяв,3-л"; noise " "]%string.

(** A stream with two adjacent entries that are not alphanumeric. *)
Definition cat_comma_sits : list Mystem.Entry :=
  [word "Кот" "кот" "S,муж,од=им,ед"; noise " "; noise ",";
   word "сидит" "сидеть" "V,несов,нп=непрош,ед,изъяв,3-л"]%string.

(** A stream of two entries. *)
Definition two_entries : list Mystem.Entry :=
  [word "Кот" "кот" "S,муж,од=им,ед"; noise "42"]%string.

(** A stream of two entries whose first carries a part of speech that the
    mapping does not list. *)
Definition adverb_then_number : list Mystem.Entry :=
  [word "Кот" "кот" "ADV="; noise "42"]%string.

Definition pipeline (stream : list Mystem.Entry) : MorphologicalAnalysisPipeline.t :=
  MorphologicalAnalysisPipeline.make (fun _ => stream) mystem_converter.

Definition parse_of (normal_form : String.string) (tag : OpencorporaTag.t)
  : Pymorphy.Parse :=
  {| Pymorphy.normal_form := lit normal_form; Pymorphy.tag := tag |}.

Definition noun_tag : OpencorporaTag.t :=
  OpencorporaTag.make (Some (lit "NOUN")) (Some (lit "anim")) (Some (lit "nomn"))
    (Some (lit "masc")) (Some (lit "sing")).

(** pymorphy2 tags such as [LATN] or [NUMB] carry no part of speech. *)
Definition bare_tag : OpencorporaTag.t :=
  OpencorporaTag.make None None None None None.

Definition unknown_pos_tag : OpencorporaTag.t :=
  OpencorporaTag.make (Some (lit "GRND")) None None None None.

Definition advanced (stream : list Mystem.Entry) (tag : OpencorporaTag.t)
  : AdvancedMorphologicalAnalysisPipeline.t :=
  AdvancedMorphologicalAnalysisPipeline.make (pipeline stream) opencorpora_converter
    (fun _ => [parse_of "котик" tag]).

Definition file (name : String.string) (size : N) : CorpusManager.File :=
  {| CorpusManager.name := lit name; CorpusManager.st_size := size |}.

(** A directory with two articles. *)
Definition corpus : CorpusManager.Path :=
  {| CorpusManager.exists_ := true;
     CorpusManager.is_dir := true;
     CorpusManager.entries :=
       [file "2_raw.txt" 120; file "1_meta.json" 64; file "1_raw.txt" 300;
        file "2_meta.json" 64; file "1_cleaned.txt" 280]%string |}.
End Fixtures.


(** ** Running a pipeline over the corpus *)

(** What [run] uses of [core_utils.article.article.Article]: the raw text
    and the sentences stored by [set_conllu_sentences]. *)
Module Article.
Record t := make {
  _article_id : nat;
  _raw_text : str;
  _conllu_sentences : list ConlluSentence.t
}.

Definition get_raw_text (self : t) : str := _raw_text self.

Definition set_conllu_sentences (self : t) (sentences : list ConlluSentence.t) : t :=
  make (_article_id self) (_raw_text self) sentences.
End Article.

(** The calls [run] makes to [core_utils.article.io], which pipeline.py
    imports: they are recorded in the order they are made, with the article
    as it is at the call; what they write is outside the file. *)
Inductive Call : Type :=
| to_cleaned (article : Article.t)
| to_conllu (article : Article.t)
    (include_morphological_tags include_pymorphy_tags : bool).

(** [for article in ...values(): article.set_conllu_sentences(process(...))],
    then the calls of [outputs]; an exception of [process] ends the loop. *)
Fixpoint run_loop (process : str -> Py (list ConlluSentence.t))
    (outputs : Article.t -> list Call) (articles : list Article.t)
  : list Call * Py unit :=
  match articles with
  | [] => ([], Returns tt)
  | article :: rest =>
      match process (Article.get_raw_text article) with
      | Raises e => ([], Raises e)
      | Returns sentences =>
          let article := Article.set_conllu_sentences article sentences in
          let '(calls, outcome) := run_loop process outputs rest in
          (outputs article ++ calls, outcome)
      end
  end.

Section Run.
Context {U : Unicode} {C : CoreUtils}.

(** [MorphologicalAnalysisPipeline.run], over the articles of the corpus
    manager in the order of [get_articles().values()]. *)
Definition basic_run (self : MorphologicalAnalysisPipeline.t) (articles : list Article.t)
  : list Call * Py unit :=
  run_loop (MorphologicalAnalysisPipeline._process self)
    (fun article => [to_cleaned article; to_conllu article false false;
                     to_conllu article true false])
    articles.

(** [AdvancedMorphologicalAnalysisPipeline.run] *)
Definition advanced_run (self : AdvancedMorphologicalAnalysisPipeline.t)
    (articles : list Article.t) : list Call * Py unit :=
  run_loop (AdvancedMorphologicalAnalysisPipeline._process self)
    (fun article => [to_cleaned article; to_conllu article true true])
    articles.
End Run.

(** ** Further notions *)

Section MoreNotions.
Context {U : Unicode}.

(** No two neighbouring entries of the stream are both not alphanumeric. *)
Definition no_adjacent_noise (result : list Mystem.Entry) : Prop :=
  forall i e1 e2,
    nth_error result i = Some e1 ->
    nth_error result (S i) = Some e2 ->
    isalnum (Mystem.text e1) = true \/ isalnum (Mystem.text e2) = true.

(** The fields of an OpenCorpora tag that are not [None], with the names of
    their categories. *)
Definition set_fields (self : TagConverter.t) (tags : OpencorporaTag.t)
  : list (str * option str) :=
  filter (fun kv => match snd kv with Some _ => true | None => false end)
         (OpenCorporaTagConverter.lst self tags).

(** Every field of the tag that is set has an entry in its category. *)
Definition fields_mapped (self : TagConverter.t) (tags : OpencorporaTag.t) : Prop :=
  forall k v, In (k, Some v) (OpenCorporaTagConverter.lst self tags) ->
    mapped self k v <> None.

(** The string holds no tab. *)
Definition tab_free (s : str) : Prop := count_occ N.eq_dec s 9%N = 0.

(** What [_validate_dataset] has checked when it returns. *)
Definition valid_dataset (path : CorpusManager.Path) : Prop :=
  let meta_files := CorpusManager.glob path (lit "_meta.json") in
  let raw_files := CorpusManager.glob path (lit "_raw.txt") in
  CorpusManager.exists_ path = true
  /\ CorpusManager.is_dir path = true
  /\ raw_files <> []
  /\ List.length meta_files = List.length raw_files
  /\ (exists metas,
        comprehension CorpusManager.id_by_match meta_files = Returns metas
        /\ Permutation metas (range1 (List.length meta_files)))
  /\ (exists raws file_ids,
        comprehension CorpusManager.id_by_match raw_files = Returns raws
        /\ Permutation raws (range1 (List.length raw_files))
        /\ comprehension CorpusManager.id_by_split raw_files = Returns file_ids
        /\ NoDup file_ids)
  /\ Forall (fun file => CorpusManager.st_size file <> 0%N) raw_files.
End MoreNotions.

(** ** Further fixtures *)

Module MoreFixtures.
Import Sample Fixtures.

(** A stream without nouns. *)
Definition sits_42 : list Mystem.Entry :=
  [word "сидит" "сидеть" "V,несов,нп=непрош,ед,изъяв,3-л"; noise " "; noise "42";
   noise " "]%string.

Definition article (n : nat) (raw_text : String.string) : Article.t :=
  Article.make n (lit raw_text) [].

(** A directory whose raw file is named with a letter after the number. *)
Definition corpus_1a : CorpusManager.Path :=
  {| CorpusManager.exists_ := true;
     CorpusManager.is_dir := true;
     CorpusManager.entries := [file "1a_raw.txt" 120; file "1_meta.json" 64]%string |}.

(** A directory with a meta file whose name starts with a letter. *)
Definition corpus_named : CorpusManager.Path :=
  {| CorpusManager.exists_ := true;
     CorpusManager.is_dir := true;
     CorpusManager.entries :=
       [file "1_raw.txt" 120; file "1_meta.json" 64; file "draft_meta.json" 64]%string |}.

Definition empty_directory : CorpusManager.Path :=
  {| CorpusManager.exists_ := true;
     CorpusManager.is_dir := true;
     CorpusManager.entries := [file "notes.md" 12]%string |}.
End MoreFixtures.
(** * Properties *)

Unset Implicit Arguments.

(** ** Basic facts *)

Lemma str_eqb_eq (a b : str) : str_eqb a b = true <-> a = b.
Proof.
  revert b; induction a as [|x a IH]; intros [|y b]; simpl; split;
    try discriminate; try reflexivity.
  - intros H. apply andb_true_iff in H as [Hx Hab].
    apply N.eqb_eq in Hx. apply IH in Hab. now subst.
  - intros H. injection H as -> ->. rewrite N.eqb_refl. simpl. now apply IH.
Qed.

Lemma str_eqb_refl (a : str) : str_eqb a a = true.
Proof. now apply str_eqb_eq. Qed.

Lemma str_eqb_neq (a b : str) : str_eqb a b = false <-> a <> b.
Proof.
  split.
  - intros H E. apply str_eqb_eq in E. congruence.
  - intros H. destruct (str_eqb a b) eqn:E; [|reflexivity].
    apply str_eqb_eq in E. contradiction.
Qed.

Lemma bind_returns {A B} (m : Py A) (k : A -> Py B) (b : B) :
  bind m k = Returns b -> exists a, m = Returns a /\ k a = Returns b.
Proof. destruct m as [a|e]; simpl; [eauto | discriminate]. Qed.

Lemma bind_raises {A B} (m : Py A) (k : A -> Py B) (e : exn) :
  bind m k = Raises e -> m = Raises e \/ exists a, m = Returns a /\ k a = Raises e.
Proof. destruct m as [a|e']; simpl; [eauto | intros [= ->]; now left]. Qed.

Lemma getitem_returns {A} (l : list A) (i : nat) (a : A) :
  getitem l i = Returns a <-> nth_error l i = Some a.
Proof.
  unfold getitem. destruct (nth_error l i); split; intros H;
    try discriminate; now inversion H.
Qed.

Lemma getitem_raises {A} (l : list A) (i : nat) (e : exn) :
  getitem l i = Raises e -> e = IndexError /\ List.length l <= i.
Proof.
  unfold getitem. destruct (nth_error l i) eqn:E; [discriminate|].
  intros [= <-]. split; [reflexivity | now apply nth_error_None].
Qed.

Lemma skipn_nth_error {A} (l : list A) (n : nat) (a : A) :
  nth_error l n = Some a -> skipn n l = a :: skipn (S n) l.
Proof.
  revert l; induction n as [|n IH]; intros [|x l]; simpl; try discriminate.
  - now intros [= ->].
  - intros H. now apply IH.
Qed.

(** Peels one [bind] off a hypothesis [bind m k = Returns b]. *)
Ltac bind_inv H :=
  let a := fresh "a" in
  let Ha := fresh "Ha" in
  apply bind_returns in H as (a & Ha & H).

(** ** The cursor *)

Section Cursor.
Context {U : Unicode}.

Lemma take_entry_unfold (result : list Mystem.Entry) (c : nat) (first : Mystem.Entry) :
  nth_error result c = Some first ->
  take_entry result c =
    (if isalnum (Mystem.text first) then Returns (first, c)
     else e <- getitem result (c + 1) ;; Returns (e, c + 1)).
Proof.
  intros H. unfold take_entry.
  apply getitem_returns in H as G. rewrite G. simpl.
  destruct (isalnum (Mystem.text first)); simpl; [now rewrite G | reflexivity].
Qed.

Lemma take_entry_returns (result : list Mystem.Entry) (c c' : nat) (e : Mystem.Entry) :
  take_entry result c = Returns (e, c') ->
  nth_error result c' = Some e /\ c <= c' <= c + 1 /\ c' < List.length result.
Proof.
  unfold take_entry. intros H.
  bind_inv H. bind_inv H. injection H as -> <-.
  apply getitem_returns in Ha0. split; [exact Ha0|].
  split; [destruct (negb _); lia|].
  apply nth_error_Some. congruence.
Qed.

Lemma take_entry_raises (result : list Mystem.Entry) (c : nat) (e : exn) :
  take_entry result c = Raises e -> e = IndexError.
Proof.
  unfold take_entry. intros H.
  apply bind_raises in H as [H | (a & _ & H)].
  - now apply getitem_raises in H.
  - apply bind_raises in H as [H | (b & _ & H)]; [|discriminate].
    now apply getitem_raises in H.
Qed.

Lemma take_entry_past_end (result : list Mystem.Entry) (c : nat) :
  List.length result <= c -> take_entry result c = Raises IndexError.
Proof.
  intros H. unfold take_entry, getitem.
  apply nth_error_None in H. now rewrite H.
Qed.

(** A stream shorter than the number of words to serve is exhausted. *)
Lemma short_stream_runs_out (result : list Mystem.Entry) (n c : nat) :
  0 < n -> List.length result < c + n -> runs_out result n c = true.
Proof.
  revert c; induction n as [|n IH]; intros c Hn Hlen; [lia|].
  simpl. destruct (take_entry result c) as [[e c']|err] eqn:E; [|reflexivity].
  apply take_entry_returns in E as (_ & Hc & Hlt).
  apply IH; lia.
Qed.
End Cursor.

(** ** The two loops *)

Section Loops.
Context {U : Unicode} {C : CoreUtils}.
Variable classify : Mystem.Entry -> Py MorphologicalTokenDTO.t.

Lemma words_loop_cons (result : list Mystem.Entry) (word : str) (rest : list str)
    (i : nat) (tokens : list ConlluToken.t) (c : nat) :
  words_loop classify result (word :: rest) i tokens c =
    ('(e, c') <- take_entry result c ;;
     parameters <- classify e ;;
     words_loop classify result rest (S i) (tokens ++ [token_of i (e, parameters)]) (c' + 1)).
Proof. reflexivity. Qed.

(** When the word loop returns, the cursor has moved as [runs_out] traces it. *)
Lemma words_loop_cursor (result : list Mystem.Entry) (words : list str) (m : nat) :
  forall i tokens c tokens' c',
    words_loop classify result words i tokens c = Returns (tokens', c') ->
    runs_out result (List.length words + m) c = runs_out result m c'.
Proof.
  induction words as [|w words IH]; intros i tokens c tokens' c' H.
  - simpl in H. now injection H as _ ->.
  - rewrite words_loop_cons in H.
    bind_inv H. destruct a as [e c1]. bind_inv H.
    simpl. rewrite Ha. now apply IH in H.
Qed.

Lemma words_loop_raises (result : list Mystem.Entry) (words : list str) :
  classifies classify result ->
  forall i tokens c e,
    words_loop classify result words i tokens c = Raises e -> e = IndexError.
Proof.
  intros Hc. induction words as [|w words IH]; intros i tokens c e H.
  - discriminate.
  - rewrite words_loop_cons in H.
    apply bind_raises in H as [H | ([e1 c1] & Ht & H)].
    + now apply take_entry_raises in H.
    + apply bind_raises in H as [H | (d & Hd & H)].
      * apply take_entry_returns in Ht as (Hn & _).
        apply nth_error_In in Hn. destruct (Hc _ Hn) as [d Hd]. congruence.
      * now apply IH in H.
Qed.

(** What the word loop returns: one token per word, numbered from [i], each
    built from an entry of the stream and its classification. *)
Lemma words_loop_returns (result : list Mystem.Entry) (words : list str) :
  forall i tokens c tokens' c',
    words_loop classify result words i tokens c = Returns (tokens', c') ->
    exists served,
      List.length served = List.length words
      /\ Forall (fun ed => In (fst ed) result /\ classify (fst ed) = Returns (snd ed)) served
      /\ tokens' = tokens ++ tokens_from i served.
Proof.
  induction words as [|w words IH]; intros i tokens c tokens' c' H.
  - simpl in H. injection H as <- _. exists []. simpl.
    repeat split; [constructor | now rewrite app_nil_r].
  - rewrite words_loop_cons in H.
    bind_inv H. destruct a as [e c1]. bind_inv H.
    apply IH in H as (served & Hlen & Hall & ->).
    exists ((e, a) :: served). simpl. repeat split.
    + now rewrite Hlen.
    + constructor; [|exact Hall]. simpl. split; [|exact Ha0].
      apply take_entry_returns in Ha as (Hn & _). eapply nth_error_In, Hn.
    + now rewrite <- app_assoc.
Qed.

Lemma sentences_loop_runs_out (result : list Mystem.Entry) (sentences : list str) :
  forall ind acc c,
    runs_out result (total_words sentences) c = true ->
    (exists e, sentences_loop classify result sentences ind acc c = Raises e)
    /\ (classifies classify result ->
        sentences_loop classify result sentences ind acc c = Raises IndexError).
Proof.
  induction sentences as [|s sentences IH]; intros ind acc c H.
  - discriminate.
  - unfold total_words in H. simpl in H. simpl.
    destruct (words_loop classify result (findall is_w s) 1 [] c)
      as [[tokens c']|e] eqn:E; simpl.
    + unfold word_count in H. rewrite (words_loop_cursor _ _ _ _ _ _ _ _ E) in H.
      now apply IH.
    + split; [eauto|]. intros Hc. now rewrite (words_loop_raises _ _ Hc _ _ _ _ E).
Qed.

(** An exception of the word loop is the subscript's [IndexError] or comes
    from the classification of an entry of the stream. *)
Lemma words_loop_raises_from (result : list Mystem.Entry) (words : list str) :
  forall i tokens c e,
    words_loop classify result words i tokens c = Raises e ->
    e = IndexError \/ exists entry, In entry result /\ classify entry = Raises e.
Proof.
  induction words as [|w words IH]; intros i tokens c e H.
  - discriminate.
  - rewrite words_loop_cons in H.
    apply bind_raises in H as [H | ([e1 c1] & Ht & H)].
    + left. now apply take_entry_raises in H.
    + apply bind_raises in H as [H | (d & Hd & H)].
      * right. exists e1. split; [|exact H].
        apply take_entry_returns in Ht as (Hn & _). eapply nth_error_In, Hn.
      * now apply IH in H.
Qed.

Lemma sentences_loop_fails (result : list Mystem.Entry) (sentences : list str) :
  forall ind acc c,
    runs_out result (total_words sentences) c = true ->
    exists e,
      sentences_loop classify result sentences ind acc c = Raises e
      /\ (e = IndexError \/ exists entry, In entry result /\ classify entry = Raises e).
Proof.
  induction sentences as [|s sentences IH]; intros ind acc c H.
  - discriminate.
  - unfold total_words in H. simpl in H. cbn [sentences_loop].
    destruct (words_loop classify result (findall is_w s) 1 [] c)
      as [[tokens c']|e] eqn:E; simpl.
    + unfold word_count in H. rewrite (words_loop_cursor _ _ _ _ _ _ _ _ E) in H.
      now apply IH.
    + exists e. split; [reflexivity|]. now apply words_loop_raises_from in E.
Qed.

Lemma process_fails (analyze : str -> list Mystem.Entry) (text : str) :
  List.length (analyze (re_sub is_W (lit " ") text))
    < total_words (split_by_sentence text)
  \/ runs_out (analyze (re_sub is_W (lit " ") text))
        (total_words (split_by_sentence text)) 0 = true ->
  exists e,
    process classify analyze text = Raises e
    /\ (e = IndexError
        \/ exists entry,
             In entry (analyze (re_sub is_W (lit " ") text))
             /\ classify entry = Raises e).
Proof.
  intros H. apply sentences_loop_fails.
  destruct H as [H | H]; [|exact H].
  apply short_stream_runs_out; lia.
Qed.

Lemma process_runs_out (analyze : str -> list Mystem.Entry) (text : str) :
  runs_out (analyze (re_sub is_W (lit " ") text))
           (total_words (split_by_sentence text)) 0 = true ->
  (exists e, process classify analyze text = Raises e)
  /\ (classifies classify (analyze (re_sub is_W (lit " ") text)) ->
      process classify analyze text = Raises IndexError).
Proof. intros H. now apply sentences_loop_runs_out. Qed.

Lemma sentences_loop_returns (result : list Mystem.Entry) (sentences : list str) :
  forall ind acc c outs,
    sentences_loop classify result sentences ind acc c = Returns outs ->
    exists outs', outs = acc ++ outs' /\ shaped classify result ind sentences outs'.
Proof.
  induction sentences as [|s sentences IH]; intros ind acc c outs H.
  - simpl in H. injection H as <-. exists []. split; [now rewrite app_nil_r | constructor].
  - simpl in H. bind_inv H. destruct a as [tokens c'].
    apply words_loop_returns in Ha as (served & Hlen & Hall & ->).
    apply IH in H as (outs' & -> & Hs).
    eexists (_ :: outs'). split; [now rewrite <- app_assoc|].
    constructor; [|exact Hs]. exists served. repeat split; assumption.
Qed.

Lemma process_returns (analyze : str -> list Mystem.Entry) (text : str)
    (outs : list ConlluSentence.t) :
  process classify analyze text = Returns outs ->
  shaped classify (analyze (re_sub is_W (lit " ") text)) 0 (split_by_sentence text) outs.
Proof.
  intros H. apply sentences_loop_returns in H as (outs' & -> & Hs). exact Hs.
Qed.
End Loops.

Import Sample Fixtures.

(** ** Stream alignment *)

(** C1 (as amended).  At a word index the cursor makes a single conditional
    step, not a loop: when the entry under the cursor is not alphanumeric the
    cursor advances by exactly one, and the entry then under the cursor is
    taken whatever it is.  The taken entry is the one the skipping loop of
    the specification would reach whenever it is itself alphanumeric, that
    is, whenever at most one entry had to be skipped.  Every iteration of the
    word loop starts with this step and then moves the cursor one further. *)
Theorem take_entry_single_step :
  forall {U : Unicode} (result : list Mystem.Entry) (c : nat) (first : Mystem.Entry),
    nth_error result c = Some first ->
    take_entry result c =
      (if isalnum (Mystem.text first) then Returns (first, c)
       else e <- getitem result (c + 1) ;; Returns (e, c + 1))
    /\ (forall e c', take_entry result c = Returns (e, c') ->
          isalnum (Mystem.text e) = true ->
          take_entry_spec result c = Returns (e, c'))
    /\ (forall classify word rest i tokens,
          words_loop classify result (word :: rest) i tokens c =
            ('(e, c') <- take_entry result c ;;
             parameters <- classify e ;;
             words_loop classify result rest (S i)
               (tokens ++ [token_of i (e, parameters)]) (c' + 1))).
Proof.
  intros U result c first Hc.
  pose proof (take_entry_unfold result c first Hc) as Hstep.
  split; [exact Hstep|]. split; [|reflexivity].
  intros e c' Ht He. rewrite Hstep in Ht.
  unfold take_entry_spec. rewrite (skipn_nth_error _ _ _ Hc). cbn [skip_noise].
  destruct (isalnum (Mystem.text first)) eqn:Hf.
  - exact Ht.
  - bind_inv Ht. injection Ht as -> <-.
    apply getitem_returns in Ha. rewrite Nat.add_1_r in *.
    rewrite (skipn_nth_error _ _ _ Ha). cbn [skip_noise]. now rewrite He.
Qed.

Lemma take_entry_single_step_witness :
  take_entry cat_sits 1 = Returns (nth 2 cat_sits (noise ""), 2)
  /\ take_entry_spec cat_sits 1 = Returns (nth 2 cat_sits (noise ""), 2).
Proof.
  destruct (take_entry_single_step cat_sits 1 (noise " ") eq_refl) as (Hstep & Hspec & _).
  split; [rewrite Hstep; reflexivity|].
  apply Hspec; [rewrite Hstep|]; reflexivity.
Defined.

(** C1 (as stated) fails: with two adjacent entries that are not
    alphanumeric (a space, then a comma) before the word, the code skips the
    space only and takes the comma, where the loop of the claim would take
    the word; the second token of the sentence is then built from the
    comma. *)
Lemma two_noise_entries_not_skipped :
  take_entry cat_comma_sits 1 = Returns (noise ",", 2)
  /\ isalnum (Mystem.text (noise ",")) = false
  /\ take_entry_spec cat_comma_sits 1 = Returns (nth 3 cat_comma_sits (noise ""), 3)
  /\ take_entry cat_comma_sits 1 <> take_entry_spec cat_comma_sits 1
  /\ match MorphologicalAnalysisPipeline._process (pipeline cat_comma_sits)
             (lit "Кот, сидит.") with
     | Returns [sentence] =>
         map ConlluToken._text (ConlluSentence._tokens sentence)
           = [lit "Кот"; lit ","; lit "."]
     | _ => False
     end.
Proof.
  repeat split; try (vm_compute; reflexivity).
  vm_compute. discriminate.
Qed.

(** C2 (as amended).  When the analyzer stream is exhausted before every
    word of every sentence has been served (it has fewer entries than the
    document has words, or the cursor otherwise leaves it), [_process] raises
    and returns no sentence at all, in the basic and in the advanced
    pipeline; the exception is the [IndexError] of the list subscript (the
    error the specification calls AlignmentExhaustedError) unless the
    classification of an entry of the stream raises first, in which case it
    is that exception. *)
Theorem exhausted_stream_fails :
  forall {U : Unicode} {C : CoreUtils},
    (forall (self : MorphologicalAnalysisPipeline.t) (text : str),
       let result := MorphologicalAnalysisPipeline._analyzer self
                       (re_sub is_W (lit " ") text) in
       List.length result < total_words (split_by_sentence text)
       \/ runs_out result (total_words (split_by_sentence text)) 0 = true ->
       exists e,
         MorphologicalAnalysisPipeline._process self text = Raises e
         /\ (e = IndexError
             \/ exists entry,
                  In entry result
                  /\ MorphologicalAnalysisPipeline.classify self entry = Raises e))
    /\ (forall (self : AdvancedMorphologicalAnalysisPipeline.t) (text : str),
          let result := AdvancedMorphologicalAnalysisPipeline._analyzer self
                          (re_sub is_W (lit " ") text) in
          List.length result < total_words (split_by_sentence text)
          \/ runs_out result (total_words (split_by_sentence text)) 0 = true ->
          exists e,
            AdvancedMorphologicalAnalysisPipeline._process self text = Raises e
            /\ (e = IndexError
                \/ exists entry,
                     In entry result
                     /\ AdvancedMorphologicalAnalysisPipeline.classify self entry
                        = Raises e)).
Proof.
  intros U C. split; intros self text result H.
  - exact (process_fails _ _ text H).
  - exact (process_fails _ _ text H).
Qed.

(** Two entries against a sentence of three words. *)
Lemma exhausted_stream_fails_witness :
  exists e,
    MorphologicalAnalysisPipeline._process (pipeline two_entries) (lit "Кот 42 сидит.")
      = Raises e
    /\ (e = IndexError
        \/ exists entry,
             In entry two_entries
             /\ MorphologicalAnalysisPipeline.classify (pipeline two_entries) entry
                = Raises e).
Proof.
  apply (proj1 exhausted_stream_fails (pipeline two_entries) (lit "Кот 42 сидит.")).
  left. vm_compute. lia.
Defined.

(** C2 (as stated) fails: a stream of two entries against three words is
    exhausted, yet both pipelines raise the [KeyError] of the first entry's
    unlisted part of speech "ADV", not the alignment error. *)
Lemma conversion_error_comes_first :
  List.length adverb_then_number = 2
  /\ total_words (split_by_sentence (lit "Кот 42 сидит.")) = 3
  /\ runs_out adverb_then_number 3 0 = true
  /\ MorphologicalAnalysisPipeline._process (pipeline adverb_then_number)
       (lit "Кот 42 сидит.") = Raises KeyError
  /\ AdvancedMorphologicalAnalysisPipeline._process (advanced adverb_then_number noun_tag)
       (lit "Кот 42 сидит.") = Raises KeyError
  /\ MorphologicalAnalysisPipeline._process (pipeline adverb_then_number)
       (lit "Кот 42 сидит.") <> Raises IndexError.
Proof.
  repeat split; try (vm_compute; reflexivity).
  vm_compute. discriminate.
Qed.

(** X1.  A stream with fewer entries than the document has words is exhausted in
    this sense, so it makes [process] raise. *)
Lemma short_stream_raises :
  forall {U : Unicode} {C : CoreUtils} classify analyze text,
    List.length (analyze (re_sub is_W (lit " ") text))
      < total_words (split_by_sentence text) ->
    exists e, process classify analyze text = Raises e.
Proof.
  intros U C classify analyze text H.
  apply process_runs_out, short_stream_runs_out; lia.
Qed.

(** ** Token positions *)

Section Numbering.
Context {U : Unicode}.

Lemma tokens_from_positions (served : list (Mystem.Entry * MorphologicalTokenDTO.t)) :
  forall i, map ConlluToken._position (tokens_from i served)
            = map Some (seq i (List.length served)).
Proof.
  induction served as [|ed served IH]; intros i; simpl; [reflexivity|].
  now rewrite IH.
Qed.

Lemma tokens_from_length (served : list (Mystem.Entry * MorphologicalTokenDTO.t)) :
  forall i, List.length (tokens_from i served) = List.length served.
Proof.
  induction served as [|ed served IH]; intros i; simpl; [reflexivity|].
  now rewrite IH.
Qed.

Lemma shaped_well_numbered classify (result : list Mystem.Entry) :
  forall ind sentences outs,
    shaped classify result ind sentences outs ->
    Forall2 well_numbered sentences outs.
Proof.
  intros ind sentences outs H.
  induction H as [ind | ind sentence sentences out outs Hs _ IH]; constructor; [|exact IH].
  destruct Hs as (served & Hlen & _ & ->). split; simpl.
  - rewrite map_app, tokens_from_positions, Hlen, seq_app, map_app. simpl.
    now rewrite Nat.add_1_r.
  - exists (tokens_from 1 served). split; [|reflexivity].
    now rewrite tokens_from_length.
Qed.
End Numbering.

(** C7.  Whenever either pipeline returns, the tokens of every output
    sentence carry the positions 1, 2, ..., word_count + 1 in this order, and
    the last of them, at position word_count + 1, is the synthetic token with
    text ".", lemma ".", part of speech PUNCT and no features. *)
Theorem positions_dense_with_terminal :
  forall {U : Unicode} {C : CoreUtils},
    (forall (self : MorphologicalAnalysisPipeline.t) text outs,
       MorphologicalAnalysisPipeline._process self text = Returns outs ->
       Forall2 well_numbered (split_by_sentence text) outs)
    /\ (forall (self : AdvancedMorphologicalAnalysisPipeline.t) text outs,
          AdvancedMorphologicalAnalysisPipeline._process self text = Returns outs ->
          Forall2 well_numbered (split_by_sentence text) outs).
Proof.
  intros U C. split; intros self text outs H;
    apply process_returns in H; eapply shaped_well_numbered, H.
Qed.

Lemma positions_dense_with_terminal_witness :
  exists outs,
    AdvancedMorphologicalAnalysisPipeline._process (advanced cat_sits noun_tag)
      (lit "Кот сидит.") = Returns outs
    /\ Forall2 well_numbered (split_by_sentence (lit "Кот сидит.")) outs.
Proof.
  eexists. split; [vm_compute; reflexivity|].
  apply (proj2 positions_dense_with_terminal (advanced cat_sits noun_tag)).
  vm_compute. reflexivity.
Defined.

(** ** Part of speech *)

Lemma lookup_returns {V} (d : dict V) (k : str) (v : V) :
  lookup d k = Returns v <-> dict_get d k = Some v.
Proof.
  unfold lookup. destruct (dict_get d k); split; intros H;
    try discriminate; now inversion H.
Qed.

Lemma lookup_raises {V} (d : dict V) (k : str) (e : exn) :
  lookup d k = Raises e <-> dict_get d k = None /\ e = KeyError.
Proof.
  unfold lookup. destruct (dict_get d k); split.
  - discriminate.
  - intros [H _]. discriminate.
  - intros [= <-]. now split.
  - intros [_ ->]. reflexivity.
Qed.

Section PartOfSpeech.
Context {U : Unicode}.

Lemma mystem_convert_pos_returns (self : TagConverter.t) (tags v : str) :
  MystemTagConverter.convert_pos self tags = Returns v <->
  exists w, re_match is_w tags = Some w /\ mapped self (TagConverter.pos self) w = Some v.
Proof.
  unfold MystemTagConverter.convert_pos, mapped. split.
  - intros H. bind_inv H. bind_inv H.
    apply lookup_returns in Ha0, H.
    destruct (re_match is_w tags) as [w|]; [|discriminate].
    injection Ha as <-. exists w. now rewrite Ha0.
  - intros (w & -> & H). simpl. unfold lookup at 1.
    destruct (dict_get _ _) as [table|]; [|discriminate].
    simpl. now apply lookup_returns.
Qed.

Lemma opencorpora_convert_pos_returns (self : TagConverter.t) (tags : OpencorporaTag.t)
    (v : option str) :
  OpenCorporaTagConverter.convert_pos self tags = Returns v ->
  match v with
  | Some p => exists w, OpencorporaTag.POS tags = Some w
                        /\ mapped self (TagConverter.pos self) w = Some p
  | None => OpencorporaTag.POS tags = None
  end.
Proof.
  unfold OpenCorporaTagConverter.convert_pos, mapped.
  destruct (OpencorporaTag.POS tags) as [w|].
  - intros H. bind_inv H. bind_inv H. injection H as <-.
    apply lookup_returns in Ha, Ha0. exists w. now rewrite Ha.
  - now intros [= <-].
Qed.

Lemma basic_classify_pos (self : MorphologicalAnalysisPipeline.t) entry d :
  pos_values_nonempty (MorphologicalAnalysisPipeline._tag_converter self) ->
  MorphologicalAnalysisPipeline.classify self entry = Returns d ->
  exists p, MorphologicalTokenDTO.pos d = Some p /\ p <> [].
Proof.
  intros Hne. unfold MorphologicalAnalysisPipeline.classify.
  destruct (Mystem.analysis entry) as [[|best rest]|].
  2:{ intros H. bind_inv H. bind_inv H. injection H as <-. simpl.
      exists a. split; [reflexivity|].
      apply mystem_convert_pos_returns in Ha as (w & _ & Hw).
      intros ->. exact (Hne _ Hw). }
  all: destruct (isdigit (Mystem.text entry)); intros [= <-]; simpl;
    eexists; (split; [reflexivity | discriminate]).
Qed.

Lemma advanced_classify_pos (self : AdvancedMorphologicalAnalysisPipeline.t) entry d :
  pos_values_nonempty (AdvancedMorphologicalAnalysisPipeline._tag_converter self) ->
  pos_values_nonempty (AdvancedMorphologicalAnalysisPipeline._backup_tag_converter self) ->
  AdvancedMorphologicalAnalysisPipeline.classify self entry = Returns d ->
  MorphologicalTokenDTO.pos d <> Some [].
Proof.
  intros Hne Hne'. unfold AdvancedMorphologicalAnalysisPipeline.classify.
  destruct (Mystem.analysis entry) as [[|best rest]|].
  2:{ intros H. bind_inv H.
      destruct (str_eqb a (lit "NOUN")).
      - unfold AdvancedMorphologicalAnalysisPipeline.escalate in H.
        bind_inv H. bind_inv H. bind_inv H. bind_inv H. injection H as <-. simpl.
        apply opencorpora_convert_pos_returns in Ha2.
        destruct a2 as [p|]; [|discriminate].
        destruct Ha2 as (w & _ & Hw). intros [= ->]. exact (Hne' _ Hw).
      - bind_inv H. injection H as <-. simpl.
        apply mystem_convert_pos_returns in Ha as (w & _ & Hw).
        intros [= ->]. exact (Hne _ Hw). }
  all: destruct (isdigit (Mystem.text entry)); intros [= <-]; simpl; discriminate.
Qed.

Lemma renders_pos_of (token : ConlluToken.t) (flag : bool) :
  MorphologicalTokenDTO.pos (ConlluToken._morphological_parameters token) <> Some [] ->
  renders_pos token flag.
Proof.
  intros H. unfold renders_pos, ConlluToken.get_conllu_text, ConlluToken.conllu_fields.
  destruct (MorphologicalTokenDTO.pos (ConlluToken._morphological_parameters token))
    as [p|] eqn:E.
  - exists p. eexists. split; [reflexivity|]. repeat split.
    + intros ->. now apply H.
    + discriminate.
    + now intros p' [= ->].
  - exists (lit "X"). eexists. split; [reflexivity|]. repeat split; discriminate.
Qed.

Lemma shaped_tokens classify (result : list Mystem.Entry) (P : ConlluToken.t -> Prop) :
  (forall n, P (terminal_token n)) ->
  (forall e d i, classify e = Returns d -> P (token_of i (e, d))) ->
  forall ind sentences outs,
    shaped classify result ind sentences outs ->
    forall sentence token,
      In sentence outs -> In token (ConlluSentence._tokens sentence) -> P token.
Proof.
  intros Hterm Htok ind sentences outs H.
  induction H as [ind | ind s sentences out outs Hs _ IH]; intros sentence token Hin Ht.
  - destruct Hin.
  - destruct Hin as [<- | Hin]; [|now apply (IH sentence)].
    destruct Hs as (served & _ & Hall & ->). simpl in Ht.
    apply in_app_or in Ht as [Ht | [<- | []]]; [|apply Hterm].
    clear Hterm IH. revert Ht. generalize 1.
    induction Hall as [|[e d] served [_ Hd] _ IHs]; intros i Ht; [destruct Ht|].
    destruct Ht as [<- | Ht]; [now apply Htok | now apply (IHs (S i))].
Qed.
End PartOfSpeech.

(** C5.  Every token either pipeline produces is rendered as the ten fields
    position, text, lemma, part of speech, "_", features or "_", "0", "root",
    "_", "_" joined by tabs, where the part-of-speech field is never empty and
    is "X" when the token has no part of speech, with and without
    morphological tags; the parts of speech listed in the mapping files are
    taken to be non-empty strings. *)
Theorem rendered_pos_never_empty :
  forall {U : Unicode} {C : CoreUtils},
    (forall (self : MorphologicalAnalysisPipeline.t) text outs,
       pos_values_nonempty (MorphologicalAnalysisPipeline._tag_converter self) ->
       MorphologicalAnalysisPipeline._process self text = Returns outs ->
       forall sentence token include_morphological_tags,
         In sentence outs -> In token (ConlluSentence._tokens sentence) ->
         renders_pos token include_morphological_tags)
    /\ (forall (self : AdvancedMorphologicalAnalysisPipeline.t) text outs,
          pos_values_nonempty (AdvancedMorphologicalAnalysisPipeline._tag_converter self) ->
          pos_values_nonempty (AdvancedMorphologicalAnalysisPipeline._backup_tag_converter self) ->
          AdvancedMorphologicalAnalysisPipeline._process self text = Returns outs ->
          forall sentence token include_morphological_tags,
            In sentence outs -> In token (ConlluSentence._tokens sentence) ->
            renders_pos token include_morphological_tags).
Proof.
  intros U C. split.
  - intros self text outs Hne H sentence token flag Hs Ht.
    apply process_returns in H.
    refine (shaped_tokens _ _ (fun t => renders_pos t flag) _ _ _ _ _ H sentence token Hs Ht).
    + intros n. apply renders_pos_of. discriminate.
    + intros e d i Hd. apply renders_pos_of. simpl.
      destruct (basic_classify_pos self e d Hne Hd) as (p & -> & Hp). now intros [= ->].
  - intros self text outs Hne Hne' H sentence token flag Hs Ht.
    apply process_returns in H.
    refine (shaped_tokens _ _ (fun t => renders_pos t flag) _ _ _ _ _ H sentence token Hs Ht).
    + intros n. apply renders_pos_of. discriminate.
    + intros e d i Hd. apply renders_pos_of. simpl.
      exact (advanced_classify_pos self e d Hne Hne' Hd).
Qed.

Lemma dict_get_In {V} (d : dict V) (k : str) (v : V) :
  dict_get d k = Some v -> In v (map snd d).
Proof.
  induction d as [|[k' v'] d IH]; simpl; [discriminate|].
  destruct (str_eqb k k'); [intros [= ->]; now left | intros H; right; now apply IH].
Qed.

Lemma pos_values_nonempty_intro (self : TagConverter.t) (entries : dict str) :
  dict_get (TagConverter._tag_mapping self) (TagConverter.pos self) = Some entries ->
  Forall (fun v => v <> []) (map snd entries) ->
  pos_values_nonempty self.
Proof.
  intros Ht Hall tag. unfold mapped. rewrite Ht. intros H.
  apply dict_get_In in H. rewrite Forall_forall in Hall. now apply (Hall [] H).
Qed.

Lemma mystem_converter_pos_nonempty : pos_values_nonempty mystem_converter.
Proof.
  eapply pos_values_nonempty_intro; [vm_compute; reflexivity|].
  repeat constructor; discriminate.
Qed.

Lemma opencorpora_converter_pos_nonempty : pos_values_nonempty opencorpora_converter.
Proof.
  eapply pos_values_nonempty_intro; [vm_compute; reflexivity|].
  repeat constructor; discriminate.
Qed.

(** The first token of "Кот сидит.", a noun whose pymorphy2 tag has no part
    of speech, is rendered with "X". *)
Lemma rendered_pos_never_empty_witness :
  exists outs sentence token,
    AdvancedMorphologicalAnalysisPipeline._process (advanced cat_sits bare_tag)
      (lit "Кот сидит.") = Returns outs
    /\ In sentence outs
    /\ In token (ConlluSentence._tokens sentence)
    /\ MorphologicalTokenDTO.pos (ConlluToken._morphological_parameters token) = None
    /\ renders_pos token true.
Proof.
  eexists. eexists. eexists.
  split; [vm_compute; reflexivity|].
  split; [left; reflexivity|].
  split; [left; reflexivity|].
  split; [reflexivity|].
  eapply (proj2 rendered_pos_never_empty (advanced cat_sits bare_tag) (lit "Кот сидит.") _
            mystem_converter_pos_nonempty opencorpora_converter_pos_nonempty).
  - vm_compute. reflexivity.
  - left. reflexivity.
  - left. reflexivity.
Defined.

(** A token that never received parameters keeps the constructor's default
    part of speech, the empty string, which is not [None]: it would be
    rendered with an empty field.  [_process] sets the parameters of every
    token it builds, so no such token leaves the pipelines. *)
Lemma default_parameters_render_empty_pos :
  nth 3 (ConlluToken.conllu_fields (ConlluToken.init (lit "a")) true) (lit "?") = [].
Proof. reflexivity. Qed.

(** ** Escalation to the fallback analyzer *)

(** C3.  For an entry with at least one analysis whose tag the Mystem
    converter maps to a part of speech [p]: when [p] is NOUN the token's
    lemma is the normal form of pymorphy2's first parse and its features (and
    part of speech) are those the OpenCorpora converter derives from that
    parse's tag, whatever lemma Mystem gave; for any other [p] the token keeps
    Mystem's lemma, [p] and the features converted from Mystem's tag, exactly
    as in the basic pipeline. *)
Theorem noun_escalates_to_fallback :
  forall {U : Unicode} (self : AdvancedMorphologicalAnalysisPipeline.t)
         (entry : Mystem.Entry) (best : Mystem.Analysis) (rest : list Mystem.Analysis)
         (p : str),
    Mystem.analysis entry = Some (best :: rest) ->
    MystemTagConverter.convert_pos
      (AdvancedMorphologicalAnalysisPipeline._tag_converter self) (Mystem.gr best)
      = Returns p ->
    (p = lit "NOUN" ->
       forall candidate others,
         AdvancedMorphologicalAnalysisPipeline._backup_analyzer self (Mystem.text entry)
           = candidate :: others ->
         AdvancedMorphologicalAnalysisPipeline.classify self entry =
           (pos <- OpenCorporaTagConverter.convert_pos
                     (AdvancedMorphologicalAnalysisPipeline._backup_tag_converter self)
                     (Pymorphy.tag candidate) ;;
            tags <- OpenCorporaTagConverter.convert_morphological_tags
                      (AdvancedMorphologicalAnalysisPipeline._backup_tag_converter self)
                      (Pymorphy.tag candidate) ;;
            Returns (MorphologicalTokenDTO.make (Pymorphy.normal_form candidate) pos tags)))
    /\ (p <> lit "NOUN" ->
          AdvancedMorphologicalAnalysisPipeline.classify self entry =
            MorphologicalAnalysisPipeline.classify
              (AdvancedMorphologicalAnalysisPipeline.base self) entry
          /\ AdvancedMorphologicalAnalysisPipeline.classify self entry =
               (tags <- MystemTagConverter.convert_morphological_tags
                          (AdvancedMorphologicalAnalysisPipeline._tag_converter self)
                          (Mystem.gr best) ;;
                Returns (MorphologicalTokenDTO.make (Mystem.lex best) (Some p) tags))).
Proof.
  intros U self entry best rest p Ha Hp.
  unfold AdvancedMorphologicalAnalysisPipeline.classify,
    MorphologicalAnalysisPipeline.classify.
  rewrite Ha.
  fold (AdvancedMorphologicalAnalysisPipeline._tag_converter self).
  rewrite Hp. simpl. split.
  - intros -> candidate others Hc. rewrite str_eqb_refl.
    unfold AdvancedMorphologicalAnalysisPipeline.escalate. now rewrite Hc.
  - intros Hne. apply str_eqb_neq in Hne. rewrite Hne. now split.
Qed.

Lemma noun_escalates_to_fallback_witness :
  AdvancedMorphologicalAnalysisPipeline.classify (advanced cat_sits noun_tag)
    (word "Кот" "кот" "S,муж,од=им,ед")
  = Returns (MorphologicalTokenDTO.make (lit "котик") (Some (lit "NOUN"))
               (lit "Animacy=Anim|Case=Nom|Gender=Masc|Number=Sing")).
Proof.
  assert (Hp : MystemTagConverter.convert_pos
                 (AdvancedMorphologicalAnalysisPipeline._tag_converter
                    (advanced cat_sits noun_tag)) (lit "S,муж,од=им,ед")
               = Returns (lit "NOUN")) by (vm_compute; reflexivity).
  rewrite (proj1 (noun_escalates_to_fallback (advanced cat_sits noun_tag)
                    (word "Кот" "кот" "S,муж,од=им,ед") _ _ (lit "NOUN")
                    eq_refl Hp) eq_refl (parse_of "котик" noun_tag) [] eq_refl).
  vm_compute. reflexivity.
Defined.

(** C6 (as amended).  A Mystem tag string whose leading word token has no
    entry in the part-of-speech category of the mapping, and an OpenCorpora
    tag whose POS field is set and has no entry there, make [convert_pos]
    raise [KeyError] (the error the specification calls UnmappedTagError); an
    OpenCorpora tag whose POS field is unset is no error: [convert_pos]
    returns [None]. *)
Theorem unmapped_pos_raises :
  forall {U : Unicode} (self : TagConverter.t),
    (forall tags w,
       re_match is_w tags = Some w ->
       mapped self (TagConverter.pos self) w = None ->
       MystemTagConverter.convert_pos self tags = Raises KeyError)
    /\ (forall tags w,
          OpencorporaTag.POS tags = Some w ->
          mapped self (TagConverter.pos self) w = None ->
          OpenCorporaTagConverter.convert_pos self tags = Raises KeyError)
    /\ (forall tags,
          OpencorporaTag.POS tags = None ->
          OpenCorporaTagConverter.convert_pos self tags = Returns None).
Proof.
  intros U self. unfold mapped. repeat split.
  - intros tags w Hw Hm. unfold MystemTagConverter.convert_pos. rewrite Hw. simpl.
    unfold lookup at 1. destruct (dict_get _ _) as [entries|]; [|reflexivity].
    simpl. unfold lookup. now rewrite Hm.
  - intros tags w Hw Hm. unfold OpenCorporaTagConverter.convert_pos. rewrite Hw.
    unfold lookup at 1. destruct (dict_get _ _) as [entries|]; [|reflexivity].
    simpl. unfold lookup. now rewrite Hm.
  - intros tags Hw. unfold OpenCorporaTagConverter.convert_pos. now rewrite Hw.
Qed.

Lemma unmapped_pos_raises_witness :
  MystemTagConverter.convert_pos mystem_converter (lit "ADV,вводн=") = Raises KeyError
  /\ OpenCorporaTagConverter.convert_pos opencorpora_converter unknown_pos_tag
     = Raises KeyError
  /\ OpenCorporaTagConverter.convert_pos opencorpora_converter bare_tag = Returns None.
Proof.
  split; [|split].
  - apply (proj1 (unmapped_pos_raises mystem_converter) _ (lit "ADV")); reflexivity.
  - apply (proj1 (proj2 (unmapped_pos_raises opencorpora_converter)) _ (lit "GRND"));
      reflexivity.
  - apply (proj2 (proj2 (unmapped_pos_raises opencorpora_converter))). reflexivity.
Defined.

(** C6 (as stated) fails for the OpenCorpora converter: a tag without a part
    of speech has no entry in the mapping (no key is [None]), yet
    [convert_pos] raises nothing and returns [None]; the advanced pipeline
    then emits the token, rendered with the fallback "X". *)
Lemma missing_pos_is_not_an_error :
  OpencorporaTag.POS bare_tag = None
  /\ OpenCorporaTagConverter.convert_pos opencorpora_converter bare_tag = Returns None
  /\ OpenCorporaTagConverter.convert_pos opencorpora_converter bare_tag <> Raises KeyError
  /\ match AdvancedMorphologicalAnalysisPipeline._process (advanced cat_sits bare_tag)
             (lit "Кот сидит.") with
     | Returns [sentence] =>
         map (fun token => nth 3 (ConlluToken.conllu_fields token true) [])
             (ConlluSentence._tokens sentence)
           = [lit "X"; lit "VERB"; lit "PUNCT"]
     | _ => False
     end.
Proof.
  repeat split; try (vm_compute; reflexivity).
  vm_compute. discriminate.
Qed.

(** ** Feature extraction from Mystem tags *)

Lemma dict_get_set_same {V} (d : dict V) (k : str) (v : V) :
  dict_get (dict_set d k v) k = Some v.
Proof.
  induction d as [|[k' v'] d IH]; simpl.
  - now rewrite str_eqb_refl.
  - destruct (str_eqb k k') eqn:E; simpl; rewrite E; [reflexivity | exact IH].
Qed.

Lemma dict_get_set_other {V} (d : dict V) (k k' : str) (v : V) :
  k <> k' -> dict_get (dict_set d k v) k' = dict_get d k'.
Proof.
  intros Hne. induction d as [|[k0 v0] d IH]; simpl.
  - apply not_eq_sym, str_eqb_neq in Hne. now rewrite Hne.
  - destruct (str_eqb k k0) eqn:E; simpl.
    + apply str_eqb_eq in E. subst k0.
      apply not_eq_sym, str_eqb_neq in Hne. now rewrite Hne.
    + now rewrite IH.
Qed.

Lemma dict_get_keys {V} (d : dict V) (k : str) :
  dict_get d k = None <-> ~ In k (keys d).
Proof.
  induction d as [|[k' v'] d IH]; simpl; [tauto|].
  destruct (str_eqb k k') eqn:E.
  - apply str_eqb_eq in E. subst. split; [discriminate | intros H; exfalso; auto].
  - apply str_eqb_neq in E. rewrite IH. split; [intros H [H'|H']; congruence | tauto].
Qed.

Lemma keys_set {V} (d : dict V) (k : str) (v : V) :
  keys (dict_set d k v) = if dict_mem d k then keys d else keys d ++ [k].
Proof.
  unfold dict_mem. induction d as [|[k' v'] d IH]; simpl; [reflexivity|].
  destruct (str_eqb k k') eqn:E; simpl; [reflexivity|].
  rewrite IH. now destruct (dict_get d k).
Qed.

Lemma keys_set_NoDup {V} (d : dict V) (k : str) (v : V) :
  NoDup (keys d) -> NoDup (keys (dict_set d k v)).
Proof.
  intros H. rewrite keys_set. unfold dict_mem.
  destruct (dict_get d k) eqn:E; [exact H|].
  apply dict_get_keys in E. clear v.
  induction (keys d) as [|x l IH]; simpl.
  - constructor; [intros [] | constructor].
  - inversion H as [|? ? Hx Hl]; subst. constructor.
    + rewrite in_app_iff. intros [Hin | [-> | []]]; [auto | apply E; now left].
    + apply IH; [exact Hl | intros Hin; apply E; now right].
Qed.

Lemma find_in_prefix {A} (P : A -> bool) (l1 : list A) (c1 : A) (l2 : list A) :
  P c1 = true ->
  exists c0, find P (l1 ++ c1 :: l2) = Some c0 /\ In c0 (l1 ++ [c1]) /\ P c0 = true.
Proof.
  intros Hc. induction l1 as [|x l1 IH]; simpl.
  - rewrite Hc. exists c1. auto.
  - destruct (P x) eqn:E.
    + exists x. auto.
    + destruct IH as (c0 & Hf & Hin & Hp). exists c0. auto.
Qed.

Section MystemFeatures.
  Context {U : Unicode}.

Lemma registered_mapped (self : TagConverter.t) (category tag : str) :
  registered self category tag = true <-> exists v, mapped self category tag = Some v.
Proof.
  unfold registered, mapped, dict_mem.
  destruct (dict_get (TagConverter._tag_mapping self) category) as [entries|].
  - destruct (dict_get entries tag); split; eauto; try discriminate.
    intros [v H]. discriminate.
  - split; [discriminate | intros [v H]; discriminate].
Qed.

(** The inner loop picks the first category that is eligible. *)
Lemma assign_tag_find (self : TagConverter.t) (tag : str) (cats : list str) (ud_tags : dict str) :
  (forall c, In c cats -> dict_get (TagConverter._tag_mapping self) c <> None) ->
  MystemTagConverter.assign_tag self tag cats ud_tags =
    Returns
      match find (fun c => registered self c tag && negb (dict_mem ud_tags c)) cats with
      | Some c =>
          match mapped self c tag with
          | Some v => dict_set ud_tags c v
          | None => ud_tags
          end
      | None => ud_tags
      end.
Proof.
  induction cats as [|c cats IH]; intros Hc; simpl; [reflexivity|].
  destruct (dict_get (TagConverter._tag_mapping self) c) as [entries|] eqn:E;
    [|exfalso; apply (Hc c); [now left | exact E]].
  assert (R : registered self c tag = dict_mem entries tag)
    by (unfold registered; now rewrite E).
  assert (M : mapped self c tag = dict_get entries tag)
    by (unfold mapped; now rewrite E).
  unfold lookup at 1. rewrite E, R. simpl.
  destruct (dict_mem entries tag && negb (dict_mem ud_tags c)) eqn:G.
  - apply andb_true_iff in G as [G _]. unfold dict_mem in G. unfold lookup.
    rewrite M. destruct (dict_get entries tag); [reflexivity | discriminate].
  - apply IH. intros c' Hin. apply Hc. now right.
Qed.

Lemma assign_tag_returns (self : TagConverter.t) (tag : str) (ud_tags : dict str) :
  has_categories self ->
  MystemTagConverter.assign_tag self tag (MystemTagConverter.categories self) ud_tags =
    Returns
      match first_eligible self ud_tags tag with
      | Some c =>
          match mapped self c tag with
          | Some v => dict_set ud_tags c v
          | None => ud_tags
          end
      | None => ud_tags
      end.
Proof. intros H. now apply assign_tag_find. Qed.

(** A step never overwrites a category and keeps the keys distinct. *)
Lemma assign_tag_keeps (self : TagConverter.t) (tag : str) (ud_tags ud_tags' : dict str) :
  has_categories self ->
  MystemTagConverter.assign_tag self tag (MystemTagConverter.categories self) ud_tags
    = Returns ud_tags' ->
  (forall c v, dict_get ud_tags c = Some v -> dict_get ud_tags' c = Some v)
  /\ (NoDup (keys ud_tags) -> NoDup (keys ud_tags')).
Proof.
  intros Hc H. rewrite (assign_tag_returns _ _ _ Hc) in H. injection H as <-.
  destruct (first_eligible self ud_tags tag) as [c0|] eqn:E; [|now split].
  destruct (mapped self c0 tag) as [v0|]; [|now split].
  apply find_some in E as [_ E]. apply andb_true_iff in E as [_ E].
  apply negb_true_iff in E. unfold dict_mem in E. split.
  - intros c v Hv. rewrite dict_get_set_other; [exact Hv|].
    intros ->. rewrite Hv in E. discriminate.
  - apply keys_set_NoDup.
Qed.

Lemma assign_tags_total (self : TagConverter.t) (extracted : list str) :
  has_categories self ->
  forall ud_tags, NoDup (keys ud_tags) ->
    exists ud_tags',
      MystemTagConverter.assign_tags self extracted ud_tags = Returns ud_tags'
      /\ NoDup (keys ud_tags')
      /\ (forall c v, dict_get ud_tags c = Some v -> dict_get ud_tags' c = Some v).
Proof.
  intros Hc. induction extracted as [|tag extracted IH]; intros ud_tags Hnd.
  - exists ud_tags. simpl. auto.
  - cbn [MystemTagConverter.assign_tags].
    destruct (MystemTagConverter.assign_tag self tag
                (MystemTagConverter.categories self) ud_tags) as [ud1|e] eqn:Hstep;
      [|rewrite (assign_tag_returns _ _ _ Hc) in Hstep; discriminate].
    destruct (assign_tag_keeps self tag ud_tags ud1 Hc Hstep) as [Hkeep Hnd'].
    destruct (IH ud1 (Hnd' Hnd)) as (ud' & Hr & Hn & Hk).
    exists ud'. split; [exact Hr|]. split; [exact Hn|].
    intros c v Hv. now apply Hk, Hkeep.
Qed.

Lemma assign_tags_app (self : TagConverter.t) (pre rest : list str) (ud_tags : dict str) :
  MystemTagConverter.assign_tags self (pre ++ rest) ud_tags =
    (ud <- MystemTagConverter.assign_tags self pre ud_tags ;;
     MystemTagConverter.assign_tags self rest ud).
Proof.
  revert ud_tags. induction pre as [|tag pre IH]; intros ud_tags; [reflexivity|].
  cbn [MystemTagConverter.assign_tags app].
  destruct (MystemTagConverter.assign_tag self tag _ ud_tags); simpl; [apply IH | reflexivity].
Qed.
End MystemFeatures.

(** C4 (as amended).  With a mapping that has the five feature categories
    under distinct names, the markers are handled one after the other, and
    each is assigned to the first category, in the order case, number,
    gender, animacy, tense, under which it is registered and which holds no
    value yet, or to no category when there is none; so a marker registered
    under an earlier and a later category is assigned to the earlier one or
    to one before it, and leaves the later one untouched, provided the
    earlier one is still unassigned; a category that holds a value keeps it
    through all later markers, so the result has one value per category. *)
Theorem mystem_category_priority :
  forall {U : Unicode} (self : TagConverter.t),
    let priority :=
      [TagConverter.case self; TagConverter.number self; TagConverter.gender self;
       TagConverter.animacy self; TagConverter.tense self] in
    has_categories self ->
    NoDup priority ->
    (forall tag rest ud_tags,
       MystemTagConverter.assign_tags self (tag :: rest) ud_tags =
         MystemTagConverter.assign_tags self rest
           match find (fun c => registered self c tag && negb (dict_mem ud_tags c))
                      priority with
           | Some c =>
               match mapped self c tag with
               | Some v => dict_set ud_tags c v
               | None => ud_tags
               end
           | None => ud_tags
           end)
    /\ (forall tag ud_tags l1 c1 l2 c2 l3,
          priority = l1 ++ c1 :: l2 ++ c2 :: l3 ->
          registered self c1 tag = true ->
          registered self c2 tag = true ->
          dict_mem ud_tags c1 = false ->
          exists c0 v,
            In c0 (l1 ++ [c1])
            /\ mapped self c0 tag = Some v
            /\ MystemTagConverter.assign_tags self [tag] ud_tags
               = Returns (dict_set ud_tags c0 v)
            /\ dict_get (dict_set ud_tags c0 v) c2 = dict_get ud_tags c2)
    /\ (forall tags,
          exists ud_tags,
            MystemTagConverter.ud_tags_of self tags = Returns ud_tags
            /\ NoDup (keys ud_tags))
    /\ (forall pre rest ud_tags,
          MystemTagConverter.assign_tags self pre [] = Returns ud_tags ->
          exists ud_tags',
            MystemTagConverter.assign_tags self (pre ++ rest) [] = Returns ud_tags'
            /\ forall c v, dict_get ud_tags c = Some v -> dict_get ud_tags' c = Some v).
Proof.
  intros U self priority Hc Hnd.
  assert (Hstep : forall tag ud_tags,
             MystemTagConverter.assign_tag self tag (MystemTagConverter.categories self)
               ud_tags =
             Returns
               match find (fun c => registered self c tag && negb (dict_mem ud_tags c))
                          priority with
               | Some c =>
                   match mapped self c tag with
                   | Some v => dict_set ud_tags c v
                   | None => ud_tags
                   end
               | None => ud_tags
               end).
  { intros tag ud_tags. exact (assign_tag_returns self tag ud_tags Hc). }
  split; [|split; [|split]].
  - intros tag rest ud_tags. cbn [MystemTagConverter.assign_tags].
    now rewrite Hstep.
  - intros tag ud_tags l1 c1 l2 c2 l3 Hcats H1 _ Hfree.
    cbn [MystemTagConverter.assign_tags]. rewrite Hstep, Hcats.
    destruct (find_in_prefix
                (fun c => registered self c tag && negb (dict_mem ud_tags c))
                l1 c1 (l2 ++ c2 :: l3)) as (c0 & -> & Hin & Hp).
    { now rewrite H1, Hfree. }
    apply andb_true_iff in Hp as [Hp _].
    apply registered_mapped in Hp as [v Hv]. rewrite Hv.
    exists c0, v. repeat split; try assumption.
    apply dict_get_set_other. intros ->.
    rewrite Hcats in Hnd.
    replace (l1 ++ c1 :: l2 ++ c2 :: l3) with ((l1 ++ [c1]) ++ l2 ++ c2 :: l3) in Hnd
      by now rewrite <- app_assoc.
    revert Hnd Hin. generalize (l1 ++ [c1]). intros l Hnd Hin.
    induction l as [|x l IH]; [destruct Hin|].
    simpl in Hnd. inversion Hnd as [|? ? Hx Hl]; subst.
    destruct Hin as [-> | Hin]; [|now apply IH].
    apply Hx. rewrite in_app_iff. right. rewrite in_app_iff. right. now left.
  - intros tags. unfold MystemTagConverter.ud_tags_of.
    destruct (assign_tags_total self (findall MystemTagConverter.is_a_ya tags) Hc [])
      as (ud & Hr & Hn & _); [constructor|].
    exists ud. now split.
  - intros pre rest ud_tags Hpre. rewrite assign_tags_app, Hpre. simpl.
    destruct (assign_tags_total self pre Hc []) as (ud0 & Hr0 & Hn0 & _); [constructor|].
    rewrite Hpre in Hr0. injection Hr0 as <-.
    destruct (assign_tags_total self rest Hc ud_tags Hn0) as (ud' & Hr & _ & Hk).
    exists ud'. now split.
Qed.

Lemma fixture_has_categories (mapping : dict (dict str)) :
  forallb (fun c => dict_mem mapping (lit c))
    ["Case"; "Number"; "Gender"; "Animacy"; "Tense"]%string = true ->
  has_categories (converter mapping).
Proof.
  intros H c Hin. simpl in H.
  repeat (apply andb_true_iff in H as [?H H]).
  unfold dict_mem in *. simpl in Hin.
  destruct Hin as [<- | [<- | [<- | [<- | [<- | []]]]]]; simpl;
    match goal with
    | |- dict_get ?m ?k <> None => destruct (dict_get m k); [discriminate | discriminate]
    end.
Qed.

Lemma fixture_categories_distinct (mapping : dict (dict str)) :
  NoDup (MystemTagConverter.categories (converter mapping)).
Proof.
  repeat constructor; simpl; intros H;
    repeat (destruct H as [H | H]; [discriminate H|]); exact H.
Qed.

(** The markers of "S,жен,неод=(вин,мн|род,ед|им,мн)": the first case marker
    and the first number marker fill their categories, the later ones find
    them taken; and "мн", registered under Number and Gender, goes to Number
    while Number is free. *)
Lemma mystem_category_priority_witness :
  MystemTagConverter.assign_tags mystem_converter
    (findall MystemTagConverter.is_a_ya (lit "S,жен,неод=(вин,мн|род,ед|им,мн)")) []
  = Returns [(lit "Gender", lit "Fem"); (lit "Animacy", lit "Inan");
             (lit "Case", lit "Acc"); (lit "Number", lit "Plur")]
  /\ (exists ud_tags,
        MystemTagConverter.ud_tags_of mystem_converter
          (lit "S,жен,неод=(вин,мн|род,ед|им,мн)") = Returns ud_tags
        /\ NoDup (keys ud_tags))
  /\ MystemTagConverter.assign_tags ambiguous_converter [lit "мн"] []
     = Returns [(lit "Number", lit "Plur")].
Proof.
  split; [vm_compute; reflexivity|]. split.
  - apply (proj1 (proj2 (proj2
             (mystem_category_priority mystem_converter
                (fixture_has_categories mystem_mapping eq_refl)
                (fixture_categories_distinct mystem_mapping))))).
  - rewrite (proj1 (mystem_category_priority ambiguous_converter
                      (fixture_has_categories
                         (TagConverter._tag_mapping ambiguous_converter) eq_refl)
                      (fixture_categories_distinct
                         (TagConverter._tag_mapping ambiguous_converter)))
               (lit "мн") [] []).
    vm_compute. reflexivity.
Defined.

(** C4 (as stated) fails: in "S,ед,мн", read with a mapping that registers
    the marker "мн" under Number and under Gender, the marker "ед" takes
    Number first; "мн" then finds Number assigned and is given to Gender, the
    later category. *)
Lemma ambiguous_marker_goes_to_later_category :
  registered ambiguous_converter (lit "Number") (lit "мн") = true
  /\ registered ambiguous_converter (lit "Gender") (lit "мн") = true
  /\ MystemTagConverter.assign_tag ambiguous_converter (lit "мн")
       (MystemTagConverter.categories ambiguous_converter) [(lit "Number", lit "Sing")]
     = Returns [(lit "Number", lit "Sing"); (lit "Gender", lit "Neut")]
  /\ MystemTagConverter.convert_morphological_tags ambiguous_converter (lit "S,ед,мн")
     = Returns (lit "Gender=Neut|Number=Sing").
Proof. repeat split; vm_compute; reflexivity. Qed.

(** ** Order of the features *)

Lemma str_ltb_irrefl (a : str) : str_ltb a a = false.
Proof.
  induction a as [|x a IH]; simpl; [reflexivity|].
  now rewrite N.ltb_irrefl, N.eqb_refl, IH.
Qed.

Lemma str_ltb_trans (a b c : str) :
  str_ltb a b = true -> str_ltb b c = true -> str_ltb a c = true.
Proof.
  revert b c; induction a as [|x a IH]; intros [|y b] [|z c]; simpl;
    try discriminate; try reflexivity.
  intros Hab Hbc.
  apply orb_true_iff in Hab as [Hab | Hab]; apply orb_true_iff in Hbc as [Hbc | Hbc];
    apply orb_true_iff.
  - left. apply N.ltb_lt in Hab, Hbc. apply N.ltb_lt. lia.
  - apply andb_true_iff in Hbc as [E _]. apply N.eqb_eq in E. subst. now left.
  - apply andb_true_iff in Hab as [E _]. apply N.eqb_eq in E. subst. now left.
  - apply andb_true_iff in Hab as [E1 Hab]. apply andb_true_iff in Hbc as [E2 Hbc].
    apply N.eqb_eq in E1, E2. subst. right. rewrite N.eqb_refl. simpl.
    now apply (IH b c).
Qed.

Lemma str_ltb_total (a b : str) :
  str_ltb a b = false -> a <> b -> str_ltb b a = true.
Proof.
  revert b; induction a as [|x a IH]; intros [|y b]; simpl; try discriminate;
    try reflexivity; try congruence.
  intros H Hne. apply orb_false_iff in H as [Hlt H].
  apply N.ltb_ge in Hlt. destruct (N.eqb x y) eqn:E.
  - apply N.eqb_eq in E. subst. simpl in H. rewrite N.eqb_refl, N.ltb_irrefl. simpl.
    apply IH; [exact H | congruence].
  - apply N.eqb_neq in E. apply orb_true_iff. left. apply N.ltb_lt. lia.
Qed.

Lemma str_ltb_asym (a b : str) : str_ltb a b = true -> str_ltb b a = false.
Proof.
  intros H. destruct (str_ltb b a) eqn:E; [|reflexivity].
  rewrite <- (str_ltb_irrefl a). symmetry. now apply (str_ltb_trans a b a).
Qed.

Lemma key_le_trans (a b c : str * str) : key_le a b -> key_le b c -> key_le a c.
Proof.
  unfold key_le. intros Hab Hbc.
  destruct (str_ltb (fst c) (fst a)) eqn:E; [|reflexivity].
  destruct (list_eq_dec N.eq_dec (fst b) (fst a)) as [Heq | Hne].
  - rewrite Heq in Hbc. congruence.
  - apply (str_ltb_total _ _ Hab) in Hne.
    rewrite (str_ltb_trans _ _ _ E Hne) in Hbc. discriminate.
Qed.

Lemma item_leb_true (x y : str * str) : item_leb x y = true -> key_le x y.
Proof.
  unfold item_leb, key_le. intros H.
  apply orb_true_iff in H as [H | H]; [now apply str_ltb_asym|].
  apply andb_true_iff in H as [H _]. apply str_eqb_eq in H. rewrite H.
  apply str_ltb_irrefl.
Qed.

Lemma item_leb_false (x y : str * str) : item_leb x y = false -> key_le y x.
Proof.
  unfold item_leb, key_le. intros H. now apply orb_false_iff in H as [H _].
Qed.

Lemma insert_item_perm (x : str * str) (l : list (str * str)) :
  Permutation (insert_item x l) (x :: l).
Proof.
  induction l as [|y l IH]; simpl; [reflexivity|].
  destruct (item_leb x y); [reflexivity|].
  rewrite IH. apply perm_swap.
Qed.

Lemma sorted_items_perm (l : list (str * str)) : Permutation (sorted_items l) l.
Proof.
  induction l as [|x l IH]; simpl; [reflexivity|].
  rewrite insert_item_perm. now constructor.
Qed.

Lemma insert_item_sorted (x : str * str) (l : list (str * str)) :
  Sorted key_le l -> Sorted key_le (insert_item x l).
Proof.
  induction l as [|y l IH]; intros Hs; simpl.
  - repeat constructor.
  - destruct (item_leb x y) eqn:E.
    + constructor; [exact Hs|]. constructor. exact (item_leb_true _ _ E).
    + inversion Hs as [|? ? Hl Hhd]; subst. constructor; [now apply IH|].
      destruct l as [|z l]; simpl.
      * constructor. exact (item_leb_false _ _ E).
      * destruct (item_leb x z); constructor.
        -- exact (item_leb_false _ _ E).
        -- now inversion Hhd.
Qed.

Lemma sorted_items_sorted (l : list (str * str)) : Sorted key_le (sorted_items l).
Proof.
  induction l as [|x l IH]; simpl; [constructor | now apply insert_item_sorted].
Qed.

(** Sorted by key and with distinct keys: the keys increase strictly. *)
Lemma distinct_keys_increase (l : list (str * str)) :
  StronglySorted key_le l -> NoDup (map fst l) -> StronglySorted str_lt (map fst l).
Proof.
  induction 1 as [|x l Hs IH Hall]; intros Hnd; simpl; [constructor|].
  inversion Hnd as [|? ? Hx Hl]; subst. constructor; [now apply IH|].
  rewrite Forall_forall in *. intros k Hk.
  apply in_map_iff in Hk as (y & <- & Hy).
  apply str_ltb_total; [now apply Hall|].
  intros E. apply Hx. rewrite <- E. now apply in_map.
Qed.

Lemma sorted_items_keys (d : dict str) :
  NoDup (keys d) -> StronglySorted str_lt (map fst (sorted_items d)).
Proof.
  intros Hnd. apply distinct_keys_increase.
  - apply Sorted_StronglySorted; [|apply sorted_items_sorted].
    intros a b c. apply key_le_trans.
  - eapply Permutation_NoDup; [|exact Hnd].
    unfold keys. apply Permutation_map, Permutation_sym, sorted_items_perm.
Qed.

Lemma strongly_sorted_remove {A} (R : A -> A -> Prop) (l1 : list A) (x : A) (l2 : list A) :
  StronglySorted R (l1 ++ x :: l2) -> StronglySorted R (l1 ++ l2).
Proof.
  induction l1 as [|y l1 IH]; simpl; intros H; inversion H as [|? ? Hs Hall]; subst.
  - exact Hs.
  - constructor; [now apply IH|].
    rewrite Forall_forall in *. intros z Hz. apply Hall.
    rewrite in_app_iff in *. simpl. tauto.
Qed.

Lemma strongly_sorted_fresh (l1 : list str) (k : str) (l2 : list str) :
  StronglySorted str_lt (l1 ++ k :: l2) -> ~ In k l1.
Proof.
  induction l1 as [|y l1 IH]; simpl; intros H Hin; [exact Hin|].
  inversion H as [|? ? Hs Hall]; subst. destruct Hin as [-> | Hin]; [|now apply IH].
  rewrite Forall_forall in Hall. specialize (Hall k).
  unfold str_lt in Hall. rewrite str_ltb_irrefl in Hall.
  discriminate Hall. rewrite in_app_iff. right. now left.
Qed.

Lemma fill_keys (self : TagConverter.t) (l : list (str * option str)) :
  forall ud_tags ud_tags',
    OpenCorporaTagConverter.fill self l ud_tags = Returns ud_tags' ->
    StronglySorted str_lt (keys ud_tags ++ map fst l) ->
    StronglySorted str_lt (keys ud_tags').
Proof.
  induction l as [|[k [v|]] l IH]; intros ud ud' H Hs; simpl in H.
  - injection H as <-. simpl in Hs. now rewrite app_nil_r in Hs.
  - simpl in Hs. bind_inv H. bind_inv H. apply IH in H; [exact H|].
    rewrite keys_set. unfold dict_mem.
    apply strongly_sorted_fresh in Hs as Hfresh. apply dict_get_keys in Hfresh.
    rewrite Hfresh, <- app_assoc. exact Hs.
  - apply IH in H; [exact H|]. simpl in Hs. now apply strongly_sorted_remove in Hs.
Qed.

Lemma assign_tag_NoDup (self : TagConverter.t) (tag : str) (cats : list str) :
  forall d d',
    NoDup (keys d) ->
    MystemTagConverter.assign_tag self tag cats d = Returns d' ->
    NoDup (keys d').
Proof.
  induction cats as [|c cats IH]; intros d d' Hd H; simpl in H.
  - now injection H as <-.
  - apply bind_returns in H as (entries & _ & H).
    destruct (dict_mem entries tag && negb (dict_mem d c)).
    + apply bind_returns in H as (v & _ & H). injection H as <-.
      now apply keys_set_NoDup.
    + now apply (IH d).
Qed.

Lemma assign_tags_NoDup (self : TagConverter.t) (extracted : list str) :
  forall d d',
    NoDup (keys d) ->
    MystemTagConverter.assign_tags self extracted d = Returns d' ->
    NoDup (keys d').
Proof.
  induction extracted as [|tag extracted IH]; intros d d' Hd H.
  - simpl in H. now injection H as <-.
  - cbn [MystemTagConverter.assign_tags] in H.
    apply bind_returns in H as (d1 & H1 & H).
    apply (IH d1 d'); [|exact H]. now apply assign_tag_NoDup in H1.
Qed.

(** C8.  The feature string either converter returns is the "|"-join of the
    "key=value" renderings of a list of items whose keys increase strictly
    in code-point order: the sorted items of the dictionary for Mystem, and
    the dictionary's own items for OpenCorpora, whose four categories are
    filled in the order animacy, case, gender, number, given that their names
    are in alphabetical order. *)
Theorem features_in_key_order :
  forall {U : Unicode} (self : TagConverter.t),
    (forall tags s,
       MystemTagConverter.convert_morphological_tags self tags = Returns s ->
       exists ud_tags,
         MystemTagConverter.ud_tags_of self tags = Returns ud_tags
         /\ s = render_items (sorted_items ud_tags)
         /\ Permutation (sorted_items ud_tags) ud_tags
         /\ StronglySorted str_lt (map fst (sorted_items ud_tags)))
    /\ (alphabetical_names self ->
        forall tags s,
          OpenCorporaTagConverter.convert_morphological_tags self tags = Returns s ->
          exists ud_tags,
            OpenCorporaTagConverter.ud_tags_of self tags = Returns ud_tags
            /\ s = render_items ud_tags
            /\ StronglySorted str_lt (map fst ud_tags)).
Proof.
  intros U self. split.
  - intros tags s H. unfold MystemTagConverter.convert_morphological_tags in H.
    bind_inv H. injection H as <-. exists a.
    split; [exact Ha|]. split; [reflexivity|]. split; [apply sorted_items_perm|].
    apply sorted_items_keys.
    unfold MystemTagConverter.ud_tags_of in Ha.
    eapply (assign_tags_NoDup self _ [] a); [constructor | exact Ha].
  - intros (H1 & H2 & H3) tags s H.
    unfold OpenCorporaTagConverter.convert_morphological_tags in H.
    bind_inv H. injection H as <-. exists a.
    split; [exact Ha|]. split; [reflexivity|].
    apply fill_keys in Ha; [exact Ha|]. simpl.
    pose proof (str_ltb_trans _ _ _ H1 H2) as H12.
    pose proof (str_ltb_trans _ _ _ H2 H3) as H23.
    pose proof (str_ltb_trans _ _ _ H1 H23) as H13.
    repeat constructor; assumption.
Qed.

Lemma fixture_names_alphabetical (mapping : dict (dict str)) :
  alphabetical_names (converter mapping).
Proof. repeat split. Qed.

Lemma features_in_key_order_witness :
  exists ud_tags,
    OpenCorporaTagConverter.ud_tags_of opencorpora_converter noun_tag = Returns ud_tags
    /\ lit "Animacy=Anim|Case=Nom|Gender=Masc|Number=Sing" = render_items ud_tags
    /\ StronglySorted str_lt (map fst ud_tags).
Proof.
  apply (proj2 (features_in_key_order opencorpora_converter)
           (fixture_names_alphabetical _) noun_tag).
  vm_compute. reflexivity.
Defined.

(** ** Cleaned text *)

Section Cleaning.
Context {U : Unicode}.

Lemma sub_from_delete (p : char -> bool) (s : str) (in_run : bool) :
  sub_from p [] s in_run = filter (fun c => negb (p c)) s.
Proof.
  revert in_run; induction s as [|c s IH]; intros in_run; simpl; [reflexivity|].
  destruct (p c); simpl; [destruct in_run; apply IH | now rewrite IH].
Qed.

Lemma strip_W_words (s : str) : forallb is_w s = true -> re_sub is_W [] s = s.
Proof.
  intros H. unfold re_sub. rewrite sub_from_delete.
  induction s as [|c s IH]; simpl in *; [reflexivity|].
  apply andb_true_iff in H as [Hc Hs]. unfold is_W at 1. rewrite Hc. simpl.
  now rewrite IH.
Qed.

Lemma get_cleaned_settled (token : ConlluToken.t) :
  settled token -> ConlluToken.get_cleaned (cleaned_token token) = ConlluToken.get_cleaned token.
Proof.
  intros [Hw Hl]. unfold cleaned_token, ConlluToken.get_cleaned at 1. simpl.
  now rewrite (strip_W_words _ Hw).
Qed.

Lemma sub_from_collapsed (s : str) :
  isspace_c 32%N = true ->
  forall in_run,
    collapsed (sub_from isspace_c (lit " ") s in_run) = true
    /\ (in_run = true -> head_nonspace (sub_from isspace_c (lit " ") s in_run) = true).
Proof.
  intros Hsp. induction s as [|c s IH]; intros in_run; simpl; [now split|].
  destruct (isspace_c c) eqn:E.
  - destruct (IH true) as [Hc Hh]. destruct in_run; simpl.
    + split; [exact Hc | intros _; now apply Hh].
    + change (N_of_ascii " ") with 32%N. rewrite Hsp, Hc, (Hh eq_refl). simpl.
      split; [reflexivity | discriminate].
  - destruct (IH false) as [Hc _]. simpl. rewrite E, Hc. now split.
Qed.

Lemma collapsed_fixed (s : str) :
  forall in_run,
    collapsed s = true ->
    (in_run = true -> head_nonspace s = true) ->
    sub_from isspace_c (lit " ") s in_run = s.
Proof.
  induction s as [|c s IH]; intros in_run Hc Hh; simpl in *; [reflexivity|].
  apply andb_true_iff in Hc as [Hc Hs].
  destruct (isspace_c c) eqn:E.
  - apply andb_true_iff in Hc as [Hc Hn]. apply N.eqb_eq in Hc. subst c.
    destruct in_run; [specialize (Hh eq_refl); discriminate|].
    simpl. f_equal. apply IH; [exact Hs | now intros _].
  - f_equal. apply IH; [exact Hs | discriminate].
Qed.

Lemma collapsed_suffix (s1 s2 : str) : collapsed (s1 ++ s2) = true -> collapsed s2 = true.
Proof.
  induction s1 as [|c s1 IH]; simpl; [trivial|].
  intros H. apply andb_true_iff in H as [_ H]. now apply IH.
Qed.

Lemma collapsed_prefix (s1 s2 : str) : collapsed (s1 ++ s2) = true -> collapsed s1 = true.
Proof.
  induction s1 as [|c s1 IH]; simpl; [trivial|].
  intros H. apply andb_true_iff in H as [Hc H]. rewrite (IH H), andb_true_r.
  destruct (isspace_c c); [|reflexivity].
  apply andb_true_iff in Hc as [Hc Hn]. rewrite Hc. simpl.
  destruct s1; [reflexivity | exact Hn].
Qed.

Lemma take_drop_while (p : char -> bool) (s : str) :
  take_while p s ++ drop_while p s = s.
Proof.
  induction s as [|c s IH]; simpl; [reflexivity|].
  destruct (p c); simpl; [now rewrite IH | reflexivity].
Qed.

Lemma rstrip_prefix (s : str) : exists t, s = rstrip s ++ t.
Proof.
  exists (rev (take_while isspace_c (rev s))). unfold rstrip.
  rewrite <- rev_app_distr, take_drop_while. now rewrite rev_involutive.
Qed.

Lemma lstrip_suffix (s : str) : exists t, s = t ++ lstrip s.
Proof. exists (take_while isspace_c s). unfold lstrip. now rewrite take_drop_while. Qed.

Lemma strip_collapsed (s : str) : collapsed s = true -> collapsed (strip s) = true.
Proof.
  intros H. unfold strip.
  destruct (lstrip_suffix s) as [t Ht]. rewrite Ht in H. apply collapsed_suffix in H.
  destruct (rstrip_prefix (lstrip s)) as [t' Ht']. rewrite Ht' in H.
  now apply collapsed_prefix in H.
Qed.

Lemma drop_while_idem (p : char -> bool) (s : str) :
  drop_while p (drop_while p s) = drop_while p s.
Proof.
  induction s as [|c s IH]; simpl; [reflexivity|].
  destruct (p c) eqn:E; [exact IH | simpl; now rewrite E].
Qed.

Lemma drop_while_snoc (p : char -> bool) (s : str) (d : char) :
  p d = false -> drop_while p (s ++ [d]) = drop_while p s ++ [d].
Proof.
  intros Hd. induction s as [|c s IH]; simpl; [now rewrite Hd|].
  destruct (p c); [exact IH | reflexivity].
Qed.

Lemma rstrip_cons (d : char) (s : str) :
  isspace_c d = false -> rstrip (d :: s) = d :: rstrip s.
Proof.
  intros Hd. unfold rstrip. simpl.
  rewrite (drop_while_snoc _ _ _ Hd), rev_app_distr. reflexivity.
Qed.

Lemma strip_idem (s : str) : strip (strip s) = strip s.
Proof.
  unfold strip.
  assert (Hl : lstrip (rstrip (lstrip s)) = rstrip (lstrip s)).
  { unfold lstrip at 2 3. induction s as [|c s IH]; simpl; [reflexivity|].
    destruct (isspace_c c) eqn:E; [exact IH|].
    rewrite (rstrip_cons _ _ E). unfold lstrip. simpl. now rewrite E. }
  rewrite Hl. unfold rstrip at 1 2. now rewrite rev_involutive, drop_while_idem.
Qed.

Lemma get_cleaned_sentence_collapsed (sentence : ConlluSentence.t) :
  isspace_c 32%N = true ->
  collapsed (ConlluSentence.get_cleaned_sentence sentence) = true.
Proof.
  intros Hsp. unfold ConlluSentence.get_cleaned_sentence, re_sub.
  apply strip_collapsed. now apply sub_from_collapsed.
Qed.

Lemma strip_head_nonspace (s : str) : head_nonspace (strip s) = true.
Proof.
  unfold strip, lstrip. induction s as [|c s IH]; simpl; [reflexivity|].
  destruct (isspace_c c) eqn:E; [exact IH|].
  rewrite (rstrip_cons _ _ E). simpl. now rewrite E.
Qed.
End Cleaning.

Section Settling.
Context {U : Unicode}.

Lemma filter_words (s : str) :
  forallb is_w (filter (fun c => negb (is_W c)) s) = true.
Proof.
  induction s as [|c s IH]; simpl; [reflexivity|].
  unfold is_W at 1. rewrite negb_involutive.
  destruct (is_w c) eqn:E; simpl; [now rewrite E | exact IH].
Qed.

(** A token without U+0130 has a settled cleaned text. *)
Lemma dotless_settled (token : ConlluToken.t) :
  lowercase_tame -> dotless token -> settled token.
Proof.
  intros Htame Hdot. unfold settled, ConlluToken.get_cleaned, re_sub.
  rewrite sub_from_delete. apply Htame; [apply filter_words|].
  intros Hin. apply filter_In in Hin as [Hin _]. exact (Hdot Hin).
Qed.
End Settling.

(** C9 (as amended).  For character tables in which lowercasing a string of
    word characters without U+0130 gives word characters that lowercasing
    leaves alone: cleaning a token whose text holds no U+0130 a second time
    returns the cleaned text; a sentence of such tokens has the same cleaned
    sentence as the sentence of its cleaned tokens; and collapsing whitespace
    and trimming the cleaned sentence of any sentence again changes
    nothing. *)
Theorem cleaning_idempotent :
  forall {U : Unicode},
    isspace_c 32%N = true ->
    lowercase_tame ->
    (forall token : ConlluToken.t,
       dotless token ->
       ConlluToken.get_cleaned (cleaned_token token) = ConlluToken.get_cleaned token)
    /\ (forall sentence : ConlluSentence.t,
          Forall dotless (ConlluSentence._tokens sentence) ->
          ConlluSentence.get_cleaned_sentence
            (ConlluSentence.make (ConlluSentence._position sentence)
               (ConlluSentence._text sentence)
               (map cleaned_token (ConlluSentence._tokens sentence)))
          = ConlluSentence.get_cleaned_sentence sentence)
    /\ (forall sentence : ConlluSentence.t,
          strip (re_sub isspace_c (lit " ") (ConlluSentence.get_cleaned_sentence sentence))
          = ConlluSentence.get_cleaned_sentence sentence).
Proof.
  intros U Hsp Htame. split; [|split].
  - intros token Hdot. apply get_cleaned_settled. now apply dotless_settled.
  - intros sentence Hall. unfold ConlluSentence.get_cleaned_sentence. simpl.
    do 3 f_equal. rewrite map_map.
    induction Hall as [|token tokens Ht _ IH]; simpl; [reflexivity|].
    now rewrite IH, (get_cleaned_settled _ (dotless_settled _ Htame Ht)).
  - intros sentence.
    pose proof (get_cleaned_sentence_collapsed sentence Hsp) as Hc.
    unfold re_sub. rewrite (collapsed_fixed _ false Hc); [|discriminate].
    unfold ConlluSentence.get_cleaned_sentence. apply strip_idem.
Qed.

Lemma between_true (lo hi c : N) : (lo <= c <= hi)%N -> between lo hi c = true.
Proof.
  intros [H1 H2]. unfold between. apply andb_true_iff. split; now apply N.leb_le.
Qed.

Lemma between_false (lo hi c : N) : (c < lo \/ hi < c)%N -> between lo hi c = false.
Proof.
  intros H. unfold between. apply andb_false_iff.
  destruct H as [H | H]; [left | right]; now apply N.leb_gt.
Qed.

Lemma sample_lower_c_fixed (x : N) :
  ((97 <= x <= 122) \/ (1072 <= x <= 1103) \/ x = 1105 \/ x = 775)%N ->
  lower_c x = [x].
Proof.
  intros H. unfold lower_c.
  rewrite (between_false 65 90 x) by lia.
  rewrite (between_false 1040 1071 x) by lia.
  replace (N.eqb x 1025) with false by (symmetry; apply N.eqb_neq; lia).
  replace (N.eqb x 304) with false by (symmetry; apply N.eqb_neq; lia).
  reflexivity.
Qed.

Lemma sample_lower_c_idem (c : N) : flat_map lower_c (lower_c c) = lower_c c.
Proof.
  unfold lower_c at 2 3.
  destruct (between 65 90 c) eqn:E1.
  { unfold between in E1. apply andb_true_iff in E1 as [H1 H2].
    apply N.leb_le in H1, H2. simpl. rewrite sample_lower_c_fixed by lia. reflexivity. }
  destruct (between 1040 1071 c) eqn:E2.
  { unfold between in E2. apply andb_true_iff in E2 as [H1 H2].
    apply N.leb_le in H1, H2. simpl. rewrite sample_lower_c_fixed by lia. reflexivity. }
  destruct (N.eqb c 1025) eqn:E3; [reflexivity|].
  destruct (N.eqb c 304) eqn:E4; [reflexivity|].
  simpl. unfold lower_c. now rewrite E1, E2, E3, E4.
Qed.

Lemma sample_lower_c_words (c : N) :
  is_w (U := Sample.unicode) c = true -> c <> 304%N ->
  forallb (is_w (U := Sample.unicode)) (lower_c c) = true.
Proof.
  unfold is_w. simpl. intros Hw Hne. unfold lower_c.
  destruct (between 65 90 c) eqn:E1.
  { unfold between in E1. apply andb_true_iff in E1 as [H1 H2].
    apply N.leb_le in H1, H2. simpl. unfold alnum.
    rewrite (between_true 97 122 (c + 32)) by lia.
    now rewrite !orb_true_r. }
  destruct (between 1040 1071 c) eqn:E2.
  { unfold between in E2. apply andb_true_iff in E2 as [H1 H2].
    apply N.leb_le in H1, H2. simpl. unfold alnum.
    rewrite (between_true 1040 1103 (c + 32)) by lia.
    now rewrite !orb_true_r. }
  destruct (N.eqb c 1025) eqn:E3; [reflexivity|].
  destruct (N.eqb c 304) eqn:E4; [apply N.eqb_eq in E4; contradiction|].
  simpl. now rewrite Hw.
Qed.

Lemma sample_lowercase_tame : lowercase_tame (U := Sample.unicode).
Proof.
  intros s Hw Hdot. split; simpl; unfold lower_s.
  - induction s as [|c s IH]; simpl; [reflexivity|].
    simpl in Hw. apply andb_true_iff in Hw as [Hc Hw]. rewrite forallb_app.
    rewrite (sample_lower_c_words c Hc) by (intros ->; apply Hdot; now left).
    apply IH; [exact Hw | intros Hin; apply Hdot; now right].
  - clear Hw Hdot. induction s as [|c s IH]; simpl; [reflexivity|].
    now rewrite flat_map_app, IH, sample_lower_c_idem.
Qed.

Lemma cleaning_idempotent_witness :
  ConlluToken.get_cleaned (cleaned_token (ConlluToken.init (lit "Кот,")))
  = ConlluToken.get_cleaned (ConlluToken.init (lit "Кот,")).
Proof.
  apply (proj1 (cleaning_idempotent (U := Sample.unicode) eq_refl sample_lowercase_tame)).
  intros Hin. vm_compute in Hin.
  repeat (destruct Hin as [Hin | Hin]; [discriminate Hin|]). exact Hin.
Defined.

(** C9 (as stated) fails: the cleaned text of the token "İ" (U+0130) is "i"
    followed by the combining dot U+0307, which is not a word character;
    cleaning that text again strips the dot and leaves "i". *)
Lemma cleaning_twice_differs :
  ConlluToken.get_cleaned (ConlluToken.init (lit "İ")) = [105%N; 775%N]
  /\ ConlluToken.get_cleaned (cleaned_token (ConlluToken.init (lit "İ"))) = [105%N]
  /\ ConlluToken.get_cleaned (cleaned_token (ConlluToken.init (lit "İ")))
     <> ConlluToken.get_cleaned (ConlluToken.init (lit "İ")).
Proof.
  repeat split; try (vm_compute; reflexivity).
  vm_compute. discriminate.
Qed.

(** ** Dataset validation *)

Lemma comprehension_returns {A B} (f : A -> Py B) (l : list A) (ys : list B) :
  comprehension f l = Returns ys -> Forall2 (fun x y => f x = Returns y) l ys.
Proof.
  revert ys; induction l as [|x l IH]; intros ys H; simpl in H.
  - injection H as <-. constructor.
  - apply bind_returns in H as (y & Hy & H).
    apply bind_returns in H as (ys' & Hys & H). injection H as <-.
    constructor; [exact Hy | now apply IH].
Qed.

Lemma comprehension_raises {A B} (f : A -> Py B) (l : list A) (e : exn) :
  comprehension f l = Raises e -> exists x, In x l /\ f x = Raises e.
Proof.
  induction l as [|x l IH]; intros H; simpl in H; [discriminate|].
  apply bind_raises in H as [H | (y & _ & H)].
  - exists x. split; [now left | exact H].
  - apply bind_raises in H as [H | (ys & _ & H)]; [|discriminate].
    destruct (IH H) as (x' & Hin & Hx). exists x'. split; [now right | exact Hx].
Qed.

Lemma insert_int_perm (x : Z) (l : list Z) : Permutation (insert_int x l) (x :: l).
Proof.
  induction l as [|y l IH]; simpl; [reflexivity|].
  destruct (Z.leb x y); [reflexivity|]. rewrite IH. apply perm_swap.
Qed.

Lemma sorted_ints_perm (l : list Z) : Permutation (sorted_ints l) l.
Proof.
  induction l as [|x l IH]; simpl; [reflexivity|].
  rewrite insert_int_perm. now constructor.
Qed.

Lemma ints_eqb_eq (a b : list Z) : ints_eqb a b = true -> a = b.
Proof.
  revert b; induction a as [|x a IH]; intros [|y b]; simpl; try discriminate;
    [reflexivity|].
  intros H. apply andb_true_iff in H as [Hx H]. apply Z.eqb_eq in Hx.
  now rewrite Hx, (IH b H).
Qed.

Lemma range1_NoDup (n : nat) : NoDup (range1 n).
Proof.
  unfold range1. apply Finite.Injective_map_NoDup; [|apply seq_NoDup].
  intros a b. apply Nat2Z.inj.
Qed.

Lemma raise_if_raises (cond : bool) (e e' : exn) :
  CorpusManager.raise_if cond e = Raises e' -> e' = e.
Proof. unfold CorpusManager.raise_if. destruct cond; [now intros [= ->] | discriminate]. Qed.

Lemma raise_if_returns (cond : bool) (e : exn) (u : unit) :
  CorpusManager.raise_if cond e = Returns u -> cond = false.
Proof. unfold CorpusManager.raise_if. now destruct cond. Qed.

Section Dataset.
Context {U : Unicode}.

Lemma forallb_impl (p q : char -> bool) (s : str) :
  (forall c, p c = true -> q c = true) -> forallb p s = true -> forallb q s = true.
Proof.
  intros Hpq. induction s as [|c s IH]; simpl; [reflexivity|].
  intros H. apply andb_true_iff in H as [Hc H]. now rewrite (Hpq c Hc), IH.
Qed.

Lemma take_while_all (p : char -> bool) (s : str) : forallb p (take_while p s) = true.
Proof.
  induction s as [|c s IH]; simpl; [reflexivity|].
  destruct (p c) eqn:E; simpl; [now rewrite E | reflexivity].
Qed.

Lemma drop_while_head (p : char -> bool) (s : str) (c : char) (r : str) :
  drop_while p s = c :: r -> p c = false.
Proof.
  induction s as [|x s IH]; simpl; [discriminate|].
  destruct (p x) eqn:E; [exact IH | now intros [= <- _]].
Qed.

Lemma take_while_app_all (q : char -> bool) (d x : str) :
  forallb q d = true -> take_while q (d ++ x) = d ++ take_while q x.
Proof.
  induction d as [|c d IH]; simpl; [reflexivity|].
  intros H. apply andb_true_iff in H as [Hc H]. now rewrite Hc, IH.
Qed.

Lemma take_while_head (q : char -> bool) (s : str) (c : char) (r : str) :
  take_while q s = c :: r -> exists s', s = c :: s' /\ q c = true.
Proof.
  destruct s as [|x s]; simpl; [discriminate|].
  destruct (q x) eqn:E; [|discriminate]. intros [= -> _]. eauto.
Qed.

Lemma int_digits_app (d : str) :
  forallb is_d d = true ->
  forall r acc after_digit,
    int_digits (d ++ r) acc after_digit =
      int_digits r (digits_value d acc)
        match d with [] => after_digit | _ => true end.
Proof.
  induction d as [|c d IH]; intros H r acc b; simpl; [reflexivity|].
  simpl in H. apply andb_true_iff in H as [Hc H]. unfold is_d in Hc.
  destruct (todecimal c); [|discriminate].
  rewrite (IH H). now destruct d.
Qed.

Lemma rstrip_app_nonspace (d r : str) :
  forallb (fun c => negb (isspace_c c)) d = true -> rstrip (d ++ r) = d ++ rstrip r.
Proof.
  induction d as [|c d IH]; simpl; [reflexivity|].
  intros H. apply andb_true_iff in H as [Hc H]. apply negb_true_iff in Hc.
  now rewrite (rstrip_cons _ _ Hc), IH.
Qed.

Lemma rdrop_cons (p : char -> bool) (d : char) (s : str) :
  p d = false ->
  rev (drop_while p (rev (d :: s))) = d :: rev (drop_while p (rev s)).
Proof.
  intros Hd. simpl. now rewrite (drop_while_snoc _ _ _ Hd), rev_app_distr.
Qed.

Lemma rdrop_prefix (p : char -> bool) (s : str) :
  exists t, s = rev (drop_while p (rev s)) ++ t.
Proof.
  exists (rev (take_while p (rev s))).
  rewrite <- rev_app_distr, take_drop_while. now rewrite rev_involutive.
Qed.

(** Digits at the start keep [int_strip] from removing anything but what
    trails them. *)
Lemma int_strip_digits (d r : str) :
  forallb (fun c => negb (int_space c)) d = true ->
  d <> [] ->
  int_strip (d ++ r) = d ++ rev (drop_while int_space (rev r)).
Proof.
  intros Hns Hne. unfold int_strip.
  assert (Hl : drop_while int_space (d ++ r) = d ++ r).
  { destruct d as [|c d]; [contradiction|]. simpl in *.
    apply andb_true_iff in Hns as [Hc _]. apply negb_true_iff in Hc. now rewrite Hc. }
  rewrite Hl. clear Hl Hne.
  induction d as [|c d IH]; simpl app; [reflexivity|].
  simpl in Hns. apply andb_true_iff in Hns as [Hc Hns]. apply negb_true_iff in Hc.
  now rewrite (rdrop_cons _ _ _ Hc), (IH Hns).
Qed.

Lemma digits_not_int_space (d : str) :
  digits_apart -> forallb is_d d = true ->
  forallb (fun c => negb (int_space c)) d = true.
Proof.
  intros (_ & _ & _ & Hsp). apply forallb_impl. intros c Hc.
  unfold int_space. now rewrite (Hsp c Hc).
Qed.

(** [int] of a string that starts with digits and goes on with something
    that is neither a digit nor an underscore: if it succeeds at all, the
    value is that of the digits. *)
Lemma int_leading_digits (d r : str) (z : Z) :
  digits_apart ->
  d <> [] ->
  forallb is_d d = true ->
  match r with [] => True | c :: _ => is_d c = false /\ c <> 95%N end ->
  int (d ++ r) = Returns z ->
  z = Z.of_N (digits_value d 0).
Proof.
  intros Ha Hne Hd Hr H.
  pose proof (digits_not_int_space d Ha Hd) as Hns.
  destruct Ha as (H95 & H43 & H45 & Hsp).
  unfold int in H. rewrite (int_strip_digits _ _ Hns Hne) in H.
  destruct d as [|c d]; [contradiction|].
  simpl in Hd. apply andb_true_iff in Hd as [Hc Hd].
  assert (Hsign : N.eqb c 43 = false /\ N.eqb c 45 = false).
  { unfold is_d in Hc. split; apply N.eqb_neq; intros ->.
    - now rewrite H43 in Hc.
    - now rewrite H45 in Hc. }
  destruct Hsign as [E43 E45].
  cbn [app int_signed] in H. rewrite E43, E45 in H.
  change (c :: d ++ ?x) with ((c :: d) ++ x) in H.
  rewrite int_digits_app in H by (simpl; now rewrite Hc, Hd).
  destruct (rev (drop_while int_space (rev r))) as [|x r'] eqn:Er.
  - simpl in H. now injection H as <-.
  - exfalso. destruct (rdrop_prefix int_space r) as [t Ht]. rewrite Er in Ht.
    rewrite Ht in Hr. simpl in Hr. destruct Hr as [Hx Hu].
    cbn [int_digits] in H. unfold is_d in Hx.
    destruct (todecimal x); [discriminate|].
    apply N.eqb_neq in Hu. rewrite Hu in H. discriminate.
Qed.

Lemma id_by_match_returns (file : CorpusManager.File) (z : Z) :
  digits_apart ->
  CorpusManager.id_by_match file = Returns z ->
  take_while is_d (CorpusManager.name file) <> [] /\ z = leading_id file.
Proof.
  intros Ha H. unfold CorpusManager.id_by_match, re_match in H.
  destruct (take_while is_d (CorpusManager.name file)) as [|c d] eqn:E;
    [discriminate|].
  simpl in H. split; [discriminate|].
  unfold leading_id. rewrite E.
  apply (int_leading_digits (c :: d) [] z Ha); [discriminate | | exact I |].
  - rewrite <- E. apply take_while_all.
  - now rewrite app_nil_r.
Qed.

Lemma id_by_split_returns (file : CorpusManager.File) (z : Z) :
  digits_apart ->
  take_while is_d (CorpusManager.name file) <> [] ->
  CorpusManager.id_by_split file = Returns z ->
  z = leading_id file.
Proof.
  intros Ha Hne H. unfold CorpusManager.id_by_split, split_first in H.
  set (q := fun c : char => negb (N.eqb c 95)) in *.
  set (name := CorpusManager.name file) in *.
  assert (Hq : forallb q (take_while is_d name) = true).
  { apply (forallb_impl is_d q); [|apply take_while_all].
    intros c Hc. unfold q. apply negb_true_iff, N.eqb_neq. intros ->.
    destruct Ha as (H95 & _). unfold is_d in Hc. now rewrite H95 in Hc. }
  rewrite <- (take_drop_while is_d name) in H at 1.
  rewrite (take_while_app_all q _ _ Hq) in H.
  unfold leading_id. fold name.
  apply (int_leading_digits _ _ z Ha Hne (take_while_all is_d name)) in H; [exact H|].
  destruct (take_while q (drop_while is_d name)) as [|c r] eqn:E; [exact I|].
  apply take_while_head in E as (s' & Hs & Hc).
  split; [now apply drop_while_head in Hs|].
  unfold q in Hc. now apply negb_true_iff, N.eqb_neq in Hc.
Qed.

(** Once the ids read by [re.match] are [1..n] in some order, the ids read by
    [split] are the same list, hence pairwise distinct. *)
Lemma split_ids_distinct (files : list CorpusManager.File) (raws file_ids : list Z) :
  digits_apart ->
  comprehension CorpusManager.id_by_match files = Returns raws ->
  sorted_ints raws = range1 (List.length files) ->
  comprehension CorpusManager.id_by_split files = Returns file_ids ->
  file_ids = raws /\ NoDup file_ids.
Proof.
  intros Ha Hm Hs Hf.
  apply comprehension_returns in Hm, Hf.
  assert (E : file_ids = raws).
  { clear Hs. revert file_ids Hf.
    induction Hm as [|x y l ys Hy _ IH]; intros ids Hf; inversion Hf; subst;
      [reflexivity|].
    apply (id_by_match_returns _ _ Ha) in Hy as [Hne ->].
    f_equal; [now apply id_by_split_returns | now apply IH]. }
  split; [exact E|]. subst file_ids.
  apply (Permutation_NoDup (l := range1 (List.length files))); [|apply range1_NoDup].
  rewrite <- Hs. apply sorted_ints_perm.
Qed.
End Dataset.

(** C10.  [_validate_dataset] never raises the duplicate-identifier error:
    when the contiguity checks on the meta and raw files have passed, the
    identifiers read from the raw file names with [split] are those read with
    [re.match], a permutation of [1..n], hence pairwise distinct. *)
Theorem duplicate_ids_unreachable :
  forall {U : Unicode},
    digits_apart ->
    forall path : CorpusManager.Path,
      CorpusManager._validate_dataset path
        <> Raises (InconsistentDatasetError (Some "IDs contain duplicates"%string))
      /\ (forall raws file_ids,
            comprehension CorpusManager.id_by_match
              (CorpusManager.glob path (lit "_raw.txt")) = Returns raws ->
            sorted_ints raws
              = range1 (List.length (CorpusManager.glob path (lit "_raw.txt"))) ->
            comprehension CorpusManager.id_by_split
              (CorpusManager.glob path (lit "_raw.txt")) = Returns file_ids ->
            NoDup file_ids
            /\ List.length file_ids = List.length (nodup Z.eq_dec file_ids)).
Proof.
  intros U Ha path.
  assert (G : forall raws file_ids,
            comprehension CorpusManager.id_by_match
              (CorpusManager.glob path (lit "_raw.txt")) = Returns raws ->
            sorted_ints raws
              = range1 (List.length (CorpusManager.glob path (lit "_raw.txt"))) ->
            comprehension CorpusManager.id_by_split
              (CorpusManager.glob path (lit "_raw.txt")) = Returns file_ids ->
            NoDup file_ids
            /\ List.length file_ids = List.length (nodup Z.eq_dec file_ids)).
  { intros raws file_ids Hm Hs Hf.
    destruct (split_ids_distinct _ _ _ Ha Hm Hs Hf) as [_ Hnd].
    split; [exact Hnd | now rewrite (nodup_fixed_point Z.eq_dec Hnd)]. }
  split; [|exact G].
  unfold CorpusManager._validate_dataset. intros H.
  apply bind_raises in H as [H | (? & _ & H)]; [apply raise_if_raises in H; discriminate|].
  apply bind_raises in H as [H | (? & _ & H)]; [apply raise_if_raises in H; discriminate|].
  apply bind_raises in H as [H | (metas & _ & H)].
  { apply comprehension_raises in H as (f & _ & H).
    unfold CorpusManager.id_by_match in H.
    apply bind_raises in H as [H | (d & _ & H)].
    - destruct (re_match is_d (CorpusManager.name f)); discriminate.
    - unfold int in H. destruct (int_signed (int_strip d)); discriminate. }
  apply bind_raises in H as [H | (? & _ & H)]; [apply raise_if_raises in H; discriminate|].
  apply bind_raises in H as [H | (raws & Hraws & H)].
  { apply comprehension_raises in H as (f & _ & H).
    unfold CorpusManager.id_by_match in H.
    apply bind_raises in H as [H | (d & _ & H)].
    - destruct (re_match is_d (CorpusManager.name f)); discriminate.
    - unfold int in H. destruct (int_signed (int_strip d)); discriminate. }
  apply bind_raises in H as [H | (? & Horder & H)]; [apply raise_if_raises in H; discriminate|].
  apply bind_raises in H as [H | (? & _ & H)]; [apply raise_if_raises in H; discriminate|].
  apply bind_raises in H as [H | (? & _ & H)]; [apply raise_if_raises in H; discriminate|].
  apply bind_raises in H as [H | (file_ids & Hids & H)].
  { apply comprehension_raises in H as (f & _ & H).
    unfold CorpusManager.id_by_split, int in H.
    destruct (int_signed _); discriminate. }
  apply bind_raises in H as [H | (? & Hdup & H)].
  - apply raise_if_returns, negb_false_iff, ints_eqb_eq in Horder.
    destruct (G raws file_ids Hraws Horder Hids) as [_ Hlen].
    unfold CorpusManager.raise_if in H. rewrite <- Hlen, Nat.eqb_refl in H. discriminate.
  - apply raise_if_raises in H. discriminate.
Qed.

Lemma sample_digits_apart : digits_apart (U := Sample.unicode).
Proof.
  repeat split. intros c Hc. unfold is_d in Hc. simpl in *.
  unfold decimal, between in Hc. unfold space, between.
  destruct (N.leb 48 c && N.leb c 57) eqn:E; [|discriminate].
  apply andb_true_iff in E as [E1 E2]. apply N.leb_le in E1, E2.
  repeat (apply orb_false_iff; split);
    try (apply andb_false_iff; right; apply N.leb_gt; lia);
    apply N.eqb_neq; lia.
Qed.

(** The sample corpus passes validation; its two raw files carry the ids 2
    and 1. *)
Lemma duplicate_ids_unreachable_witness :
  CorpusManager._validate_dataset corpus = Returns tt
  /\ CorpusManager._validate_dataset corpus
     <> Raises (InconsistentDatasetError (Some "IDs contain duplicates"%string))
  /\ comprehension CorpusManager.id_by_split (CorpusManager.glob corpus (lit "_raw.txt"))
     = Returns [2%Z; 1%Z]
  /\ NoDup [2%Z; 1%Z].
Proof.
  destruct (duplicate_ids_unreachable sample_digits_apart corpus) as [Hnever Hdistinct].
  split; [vm_compute; reflexivity|].
  split; [exact Hnever|].
  split; [vm_compute; reflexivity|].
  apply (Hdistinct [2%Z; 1%Z] [2%Z; 1%Z]); vm_compute; reflexivity.
Defined.

(** * Further properties *)

Import MoreFixtures.

(** ** Alignment: when it fails and when it cannot *)

Lemma short_stream_raises_witness :
  exists e,
    process (MorphologicalAnalysisPipeline.classify (pipeline two_entries))
      (fun _ => two_entries) (lit "Кот 42 сидит.") = Raises e.
Proof.
  apply (short_stream_raises
           (MorphologicalAnalysisPipeline.classify (pipeline two_entries))
           (fun _ => two_entries) (lit "Кот 42 сидит.")).
  vm_compute. lia.
Defined.

Section Enough.
Context {U : Unicode} {C : CoreUtils}.
Variable classify : Mystem.Entry -> Py MorphologicalTokenDTO.t.

Lemma take_entry_enough (result : list Mystem.Entry) (c : nat) :
  c + 1 < List.length result ->
  exists e c', take_entry result c = Returns (e, c') /\ c' <= c + 1.
Proof.
  intros Hlen.
  destruct (nth_error result c) as [first|] eqn:E;
    [|apply nth_error_None in E; lia].
  rewrite (take_entry_unfold _ _ _ E).
  destruct (isalnum (Mystem.text first)).
  - exists first, c. split; [reflexivity | lia].
  - destruct (nth_error result (c + 1)) as [e|] eqn:E';
      [|apply nth_error_None in E'; lia].
    apply getitem_returns in E'. rewrite E'. exists e, (c + 1). now split.
Qed.

Lemma words_loop_enough (result : list Mystem.Entry) (words : list str) :
  classifies classify result ->
  forall i tokens c,
    c + 2 * List.length words <= List.length result ->
    exists tokens' c',
      words_loop classify result words i tokens c = Returns (tokens', c')
      /\ c' <= c + 2 * List.length words.
Proof.
  intros Hc. induction words as [|w words IH]; intros i tokens c Hlen.
  - exists tokens, c. split; [reflexivity | lia].
  - simpl List.length in *. rewrite words_loop_cons.
    destruct (take_entry_enough result c) as (e & c1 & Ht & Hc1); [lia|].
    rewrite Ht. simpl.
    destruct (Hc e) as [d Hd].
    { apply take_entry_returns in Ht as (Hn & _). eapply nth_error_In, Hn. }
    rewrite Hd. simpl.
    destruct (IH (S i) (tokens ++ [token_of i (e, d)]) (c1 + 1)) as (t' & c' & Hr & Hc');
      [lia|].
    exists t', c'. split; [exact Hr | lia].
Qed.

Lemma sentences_loop_enough (result : list Mystem.Entry) (sentences : list str) :
  classifies classify result ->
  forall ind acc c,
    c + 2 * total_words sentences <= List.length result ->
    exists outs, sentences_loop classify result sentences ind acc c = Returns outs.
Proof.
  intros Hc. induction sentences as [|s sentences IH]; intros ind acc c Hlen.
  - exists acc. reflexivity.
  - unfold total_words in Hlen. simpl in Hlen. fold (total_words sentences) in Hlen.
    cbn [sentences_loop].
    destruct (words_loop_enough result (findall is_w s) Hc 1 [] c) as (t & c' & Hr & Hc');
      [unfold word_count in Hlen; lia|].
    rewrite Hr. simpl. apply IH. unfold word_count in Hlen. lia.
Qed.
End Enough.

(** X2.  A stream with at least two entries per word whose entries all classify
    is never exhausted: both pipelines return. *)
Theorem long_stream_returns :
  forall {U : Unicode} {C : CoreUtils},
    (forall (self : MorphologicalAnalysisPipeline.t) (text : str),
       let result := MorphologicalAnalysisPipeline._analyzer self
                       (re_sub is_W (lit " ") text) in
       classifies (MorphologicalAnalysisPipeline.classify self) result ->
       2 * total_words (split_by_sentence text) <= List.length result ->
       exists outs, MorphologicalAnalysisPipeline._process self text = Returns outs)
    /\ (forall (self : AdvancedMorphologicalAnalysisPipeline.t) (text : str),
          let result := AdvancedMorphologicalAnalysisPipeline._analyzer self
                          (re_sub is_W (lit " ") text) in
          classifies (AdvancedMorphologicalAnalysisPipeline.classify self) result ->
          2 * total_words (split_by_sentence text) <= List.length result ->
          exists outs, AdvancedMorphologicalAnalysisPipeline._process self text = Returns outs).
Proof.
  intros U C. split; intros self text result Hc Hlen;
    apply (sentences_loop_enough _ result _ Hc 0 [] 0); simpl; lia.
Qed.

Lemma cat_sits_classifies :
  classifies (MorphologicalAnalysisPipeline.classify (pipeline cat_sits)) cat_sits.
Proof.
  intros entry Hin. simpl in Hin.
  destruct Hin as [<- | [<- | [<- | [<- | []]]]]; eexists; vm_compute; reflexivity.
Qed.

Lemma long_stream_returns_witness :
  exists outs,
    MorphologicalAnalysisPipeline._process (pipeline cat_sits) (lit "Кот сидит.")
      = Returns outs.
Proof.
  apply (proj1 long_stream_returns (pipeline cat_sits) (lit "Кот сидит.")).
  - exact cat_sits_classifies.
  - vm_compute. lia.
Defined.

(** ** The sentences of the output *)

Lemma shaped_sentences {U : Unicode} classify (result : list Mystem.Entry) :
  forall ind sentences outs,
    shaped classify result ind sentences outs ->
    map ConlluSentence._position outs = seq ind (List.length sentences)
    /\ map ConlluSentence._text outs = sentences
    /\ Forall2 (fun sentence out =>
                  List.length (ConlluSentence._tokens out) = word_count sentence + 1)
         sentences outs.
Proof.
  intros ind sentences outs H.
  induction H as [ind | ind sentence sentences out outs Hs _ (IHp & IHt & IHn)].
  - repeat split. constructor.
  - destruct Hs as (served & Hlen & _ & ->). simpl.
    rewrite IHp, IHt. repeat split. constructor; [|exact IHn].
    simpl. now rewrite length_app, tokens_from_length, Hlen.
Qed.

(** X3.  Whenever either pipeline returns, it returns one sentence per sentence
    of the splitter, in the same order: the k-th carries the position k
    (from 0), the k-th sentence as its text, and one token per word plus the
    terminal one. *)
Theorem sentences_follow_splitter :
  forall {U : Unicode} {C : CoreUtils},
    (forall (self : MorphologicalAnalysisPipeline.t) text outs,
       MorphologicalAnalysisPipeline._process self text = Returns outs ->
       map ConlluSentence._position outs
         = seq 0 (List.length (split_by_sentence text))
       /\ map ConlluSentence._text outs = split_by_sentence text
       /\ Forall2 (fun sentence out =>
                     List.length (ConlluSentence._tokens out) = word_count sentence + 1)
            (split_by_sentence text) outs)
    /\ (forall (self : AdvancedMorphologicalAnalysisPipeline.t) text outs,
          AdvancedMorphologicalAnalysisPipeline._process self text = Returns outs ->
          map ConlluSentence._position outs
            = seq 0 (List.length (split_by_sentence text))
          /\ map ConlluSentence._text outs = split_by_sentence text
          /\ Forall2 (fun sentence out =>
                        List.length (ConlluSentence._tokens out) = word_count sentence + 1)
               (split_by_sentence text) outs).
Proof.
  intros U C. split; intros self text outs H;
    apply process_returns in H; eapply shaped_sentences, H.
Qed.

Lemma sentences_follow_splitter_witness :
  exists outs,
    MorphologicalAnalysisPipeline._process (pipeline cat_sits) (lit "Кот. Сидит.")
      = Returns outs
    /\ map ConlluSentence._position outs = [0; 1]
    /\ map ConlluSentence._text outs = [lit "Кот."; lit "Сидит."].
Proof.
  eexists. split; [vm_compute; reflexivity|].
  match goal with
  | |- map _ ?outs = _ /\ _ =>
      assert (H : MorphologicalAnalysisPipeline._process (pipeline cat_sits)
                    (lit "Кот. Сидит.") = Returns outs) by (vm_compute; reflexivity);
      destruct (proj1 sentences_follow_splitter (pipeline cat_sits) (lit "Кот. Сидит.")
                  outs H) as (Hp & Ht & _)
  end.
  split; [exact Hp | exact Ht].
Defined.

(** ** The tokens of the output *)

Section Taken.
Context {U : Unicode} {C : CoreUtils}.
Variable classify : Mystem.Entry -> Py MorphologicalTokenDTO.t.
Variable result : list Mystem.Entry.
Variable P : ConlluToken.t -> Prop.
Hypothesis P_terminal : forall n, P (terminal_token n).
Hypothesis P_word :
  forall c c' e d i,
    take_entry result c = Returns (e, c') -> classify e = Returns d ->
    P (token_of i (e, d)).

Lemma words_loop_tokens (words : list str) :
  forall i tokens c tokens' c',
    Forall P tokens ->
    words_loop classify result words i tokens c = Returns (tokens', c') ->
    Forall P tokens'.
Proof.
  induction words as [|w words IH]; intros i tokens c tokens' c' Hall H.
  - simpl in H. now injection H as <- _.
  - rewrite words_loop_cons in H.
    apply bind_returns in H as ([e c1] & Ht & H).
    apply bind_returns in H as (d & Hd & H).
    apply IH in H; [exact H|].
    apply Forall_app. split; [exact Hall|]. constructor; [|constructor].
    exact (P_word _ _ _ _ _ Ht Hd).
Qed.

Lemma sentences_loop_tokens (sentences : list str) :
  forall ind acc c outs,
    Forall (fun s => Forall P (ConlluSentence._tokens s)) acc ->
    sentences_loop classify result sentences ind acc c = Returns outs ->
    Forall (fun s => Forall P (ConlluSentence._tokens s)) outs.
Proof.
  induction sentences as [|s sentences IH]; intros ind acc c outs Hall H.
  - simpl in H. now injection H as <-.
  - cbn [sentences_loop] in H.
    apply bind_returns in H as ([tokens c'] & Hw & H).
    apply IH in H; [exact H|].
    apply Forall_app. split; [exact Hall|]. constructor; [|constructor].
    simpl. apply Forall_app. split.
    + eapply words_loop_tokens; [constructor | exact Hw].
    + constructor; [apply P_terminal | constructor].
Qed.
End Taken.

Lemma take_entry_alnum {U : Unicode} (result : list Mystem.Entry) (c c' : nat)
    (e : Mystem.Entry) :
  no_adjacent_noise result ->
  take_entry result c = Returns (e, c') ->
  isalnum (Mystem.text e) = true.
Proof.
  intros Hno H.
  destruct (nth_error result c) as [first|] eqn:E.
  - rewrite (take_entry_unfold _ _ _ E) in H.
    destruct (isalnum (Mystem.text first)) eqn:Ef.
    + now injection H as <- _.
    + apply bind_returns in H as (e' & He & H). injection H as <- _.
      apply getitem_returns in He. rewrite Nat.add_1_r in He.
      destruct (Hno c first e' E He) as [Hf | He']; [congruence | exact He'].
  - apply nth_error_None in E. rewrite (take_entry_past_end _ _ E) in H. discriminate.
Qed.

(** X4.  When no two neighbouring entries of the analyzer stream are both not
    alphanumeric, every token either pipeline returns is the terminal token
    or carries an alphanumeric text, which is the text of an entry of the
    stream (not the word found in the sentence). *)
Theorem word_tokens_alphanumeric :
  forall {U : Unicode} {C : CoreUtils},
    (forall (self : MorphologicalAnalysisPipeline.t) text outs,
       no_adjacent_noise
         (MorphologicalAnalysisPipeline._analyzer self (re_sub is_W (lit " ") text)) ->
       MorphologicalAnalysisPipeline._process self text = Returns outs ->
       forall sentence token,
         In sentence outs -> In token (ConlluSentence._tokens sentence) ->
         (exists n, token = terminal_token n)
         \/ (isalnum (ConlluToken._text token) = true
             /\ exists e,
                  In e (MorphologicalAnalysisPipeline._analyzer self
                          (re_sub is_W (lit " ") text))
                  /\ ConlluToken._text token = Mystem.text e))
    /\ (forall (self : AdvancedMorphologicalAnalysisPipeline.t) text outs,
          no_adjacent_noise
            (AdvancedMorphologicalAnalysisPipeline._analyzer self
               (re_sub is_W (lit " ") text)) ->
          AdvancedMorphologicalAnalysisPipeline._process self text = Returns outs ->
          forall sentence token,
            In sentence outs -> In token (ConlluSentence._tokens sentence) ->
            (exists n, token = terminal_token n)
            \/ (isalnum (ConlluToken._text token) = true
                /\ exists e,
                     In e (AdvancedMorphologicalAnalysisPipeline._analyzer self
                             (re_sub is_W (lit " ") text))
                     /\ ConlluToken._text token = Mystem.text e)).
Proof.
  intros U C. split; intros self text outs Hno H sentence token Hs Ht.
  all: match type of Hno with no_adjacent_noise ?r => set (result := r) in * end.
  all: pose (P := fun token : ConlluToken.t =>
                    (exists n, token = terminal_token n)
                    \/ (isalnum (ConlluToken._text token) = true
                        /\ exists e, In e result /\ ConlluToken._text token = Mystem.text e)).
  all: assert (G : Forall (fun s => Forall P (ConlluSentence._tokens s)) outs).
  1, 3: eapply (sentences_loop_tokens _ result P); [| | constructor | exact H].
  1, 3: intros n; left; now exists n.
  1, 2: intros c c' e d i Hc _; right; simpl; split;
    [exact (take_entry_alnum _ _ _ _ Hno Hc)|];
    exists e; split; [|reflexivity];
    apply take_entry_returns in Hc as (Hn & _); eapply nth_error_In, Hn.
  all: rewrite Forall_forall in G; specialize (G sentence Hs);
    rewrite Forall_forall in G; exact (G token Ht).
Qed.

Lemma cat_sits_no_adjacent_noise : no_adjacent_noise cat_sits.
Proof.
  intros i e1 e2 H1 H2.
  destruct i as [|[|[|[|i]]]]; simpl in H1, H2;
    try discriminate; try (destruct i; discriminate);
    injection H1 as <-; injection H2 as <-;
    ((left; vm_compute; reflexivity) || (right; vm_compute; reflexivity)).
Qed.

Lemma word_tokens_alphanumeric_witness :
  isalnum (lit "сидит") = true
  /\ exists e, In e cat_sits /\ lit "сидит" = Mystem.text e.
Proof.
  assert (H : exists outs sentence,
             MorphologicalAnalysisPipeline._process (pipeline cat_sits) (lit "Кот сидит.")
               = Returns outs
             /\ In sentence outs
             /\ In (token_of 2 (nth 2 cat_sits (noise ""),
                                MorphologicalTokenDTO.make (lit "сидеть") (Some (lit "VERB"))
                                  (lit "Number=Sing|Tense=Pres")))
                   (ConlluSentence._tokens sentence)).
  { eexists. eexists. split; [vm_compute; reflexivity|].
    split; [left; reflexivity|]. right. left. vm_compute. reflexivity. }
  destruct H as (outs & sentence & Hr & Hs & Ht).
  destruct (proj1 word_tokens_alphanumeric (pipeline cat_sits) (lit "Кот сидит.") outs
              cat_sits_no_adjacent_noise Hr sentence _ Hs Ht) as [[n Hn] | Hw].
  - vm_compute in Hn. discriminate Hn.
  - exact Hw.
Defined.

(** ** The two pipelines compared *)

Section Extensional.
Context {U : Unicode} {C : CoreUtils}.
Variables f g : Mystem.Entry -> Py MorphologicalTokenDTO.t.
Variable result : list Mystem.Entry.
Hypothesis agree : forall e, In e result -> f e = g e.

Lemma words_loop_ext (words : list str) :
  forall i tokens c,
    words_loop f result words i tokens c = words_loop g result words i tokens c.
Proof.
  induction words as [|w words IH]; intros i tokens c; [reflexivity|].
  rewrite !words_loop_cons.
  destruct (take_entry result c) as [[e c1]|err] eqn:Ht; simpl; [|reflexivity].
  rewrite agree.
  - destruct (g e); simpl; [apply IH | reflexivity].
  - apply take_entry_returns in Ht as (Hn & _). eapply nth_error_In, Hn.
Qed.

Lemma sentences_loop_ext (sentences : list str) :
  forall ind acc c,
    sentences_loop f result sentences ind acc c
    = sentences_loop g result sentences ind acc c.
Proof.
  induction sentences as [|s sentences IH]; intros ind acc c; [reflexivity|].
  cbn [sentences_loop]. rewrite words_loop_ext.
  destruct (words_loop g result (findall is_w s) 1 [] c) as [[tokens c']|err]; simpl;
    [apply IH | reflexivity].
Qed.
End Extensional.

(** X5.  On a text in whose analyzer stream no entry has a best analysis that the
    Mystem converter maps to NOUN, the advanced pipeline returns (or raises)
    exactly what the basic pipeline it extends does: the fallback analyzer
    is never consulted. *)
Theorem advanced_equals_basic_without_nouns :
  forall {U : Unicode} {C : CoreUtils}
         (self : AdvancedMorphologicalAnalysisPipeline.t) (text : str),
    (forall e best rest,
       In e (AdvancedMorphologicalAnalysisPipeline._analyzer self
               (re_sub is_W (lit " ") text)) ->
       Mystem.analysis e = Some (best :: rest) ->
       MystemTagConverter.convert_pos
         (AdvancedMorphologicalAnalysisPipeline._tag_converter self) (Mystem.gr best)
       <> Returns (lit "NOUN")) ->
    AdvancedMorphologicalAnalysisPipeline._process self text
    = MorphologicalAnalysisPipeline._process
        (AdvancedMorphologicalAnalysisPipeline.base self) text.
Proof.
  intros U C self text Hno.
  unfold AdvancedMorphologicalAnalysisPipeline._process,
    MorphologicalAnalysisPipeline._process, process.
  apply sentences_loop_ext. intros e Hin.
  unfold AdvancedMorphologicalAnalysisPipeline.classify,
    MorphologicalAnalysisPipeline.classify.
  destruct (Mystem.analysis e) as [[|best rest]|] eqn:Ea; try reflexivity.
  specialize (Hno e best rest Hin Ea).
  fold (AdvancedMorphologicalAnalysisPipeline._tag_converter self).
  destruct (MystemTagConverter.convert_pos _ (Mystem.gr best)) as [p|err];
    simpl; [|reflexivity].
  destruct (str_eqb p (lit "NOUN")) eqn:E; [|reflexivity].
  apply str_eqb_eq in E. subst p. now contradiction Hno.
Qed.

Lemma advanced_equals_basic_without_nouns_witness :
  AdvancedMorphologicalAnalysisPipeline._process (advanced sits_42 noun_tag)
    (lit "Сидит 42.")
  = MorphologicalAnalysisPipeline._process (pipeline sits_42) (lit "Сидит 42.").
Proof.
  apply (advanced_equals_basic_without_nouns (advanced sits_42 noun_tag) (lit "Сидит 42.")).
  intros e best rest Hin Ha. simpl in Hin.
  destruct Hin as [<- | [<- | [<- | [<- | []]]]]; try discriminate Ha.
  injection Ha as <- _. vm_compute. discriminate.
Defined.

(** ** The exceptions a pipeline can raise *)

Section Exceptions.
Context {U : Unicode} {C : CoreUtils}.

Lemma mystem_assign_tags_raises (self : TagConverter.t) (extracted : list str) :
  forall ud_tags e,
    MystemTagConverter.assign_tags self extracted ud_tags = Raises e -> e = KeyError.
Proof.
  assert (G : forall tag cats ud e,
             MystemTagConverter.assign_tag self tag cats ud = Raises e -> e = KeyError).
  { intros tag cats. induction cats as [|c cats IH]; intros ud e H; simpl in H;
      [discriminate|].
    apply bind_raises in H as [H | (entries & _ & H)]; [now apply lookup_raises in H|].
    destruct (dict_mem entries tag && negb (dict_mem ud c)); [|now apply IH in H].
    apply bind_raises in H as [H | (v & _ & H)]; [now apply lookup_raises in H|].
    discriminate. }
  induction extracted as [|tag extracted IH]; intros ud e H; [discriminate|].
  cbn [MystemTagConverter.assign_tags] in H.
  apply bind_raises in H as [H | (ud' & _ & H)]; [now apply G in H | now apply IH in H].
Qed.

Lemma mystem_features_raises (self : TagConverter.t) (tags : str) (e : exn) :
  MystemTagConverter.convert_morphological_tags self tags = Raises e -> e = KeyError.
Proof.
  unfold MystemTagConverter.convert_morphological_tags, MystemTagConverter.ud_tags_of.
  intros H. apply bind_raises in H as [H | (ud & _ & H)]; [|discriminate].
  now apply mystem_assign_tags_raises in H.
Qed.

Lemma mystem_pos_raises (self : TagConverter.t) (tags : str) (e : exn) :
  MystemTagConverter.convert_pos self tags = Raises e -> e = KeyError \/ e = TypeError.
Proof.
  unfold MystemTagConverter.convert_pos. intros H.
  apply bind_raises in H as [H | (w & _ & H)].
  - right. destruct (re_match is_w tags); [discriminate | now injection H as <-].
  - left. apply bind_raises in H as [H | (entries & _ & H)]; now apply lookup_raises in H.
Qed.

Lemma opencorpora_fill_raises (self : TagConverter.t) (l : list (str * option str)) :
  forall ud_tags e, OpenCorporaTagConverter.fill self l ud_tags = Raises e -> e = KeyError.
Proof.
  induction l as [|[k [v|]] l IH]; intros ud e H; simpl in H; [discriminate| |].
  - apply bind_raises in H as [H | (entries & _ & H)]; [now apply lookup_raises in H|].
    apply bind_raises in H as [H | (v' & _ & H)]; [now apply lookup_raises in H|].
    now apply IH in H.
  - now apply IH in H.
Qed.

Lemma opencorpora_pos_raises (self : TagConverter.t) (tags : OpencorporaTag.t) (e : exn) :
  OpenCorporaTagConverter.convert_pos self tags = Raises e -> e = KeyError.
Proof.
  unfold OpenCorporaTagConverter.convert_pos.
  destruct (OpencorporaTag.POS tags) as [p|]; [|discriminate]. intros H.
  apply bind_raises in H as [H | (entries & _ & H)]; [now apply lookup_raises in H|].
  apply bind_raises in H as [H | (v & _ & H)]; [now apply lookup_raises in H|].
  discriminate.
Qed.

Lemma opencorpora_features_raises (self : TagConverter.t) (tags : OpencorporaTag.t)
    (e : exn) :
  OpenCorporaTagConverter.convert_morphological_tags self tags = Raises e -> e = KeyError.
Proof.
  unfold OpenCorporaTagConverter.convert_morphological_tags,
    OpenCorporaTagConverter.ud_tags_of.
  intros H. apply bind_raises in H as [H | (ud & _ & H)]; [|discriminate].
  now apply opencorpora_fill_raises in H.
Qed.

Lemma basic_classify_raises (self : MorphologicalAnalysisPipeline.t) entry e :
  MorphologicalAnalysisPipeline.classify self entry = Raises e ->
  e = KeyError \/ e = TypeError.
Proof.
  unfold MorphologicalAnalysisPipeline.classify.
  destruct (Mystem.analysis entry) as [[|best rest]|];
    try (destruct (isdigit (Mystem.text entry)); discriminate).
  intros H. apply bind_raises in H as [H | (p & _ & H)]; [now apply mystem_pos_raises in H|].
  apply bind_raises in H as [H | (t & _ & H)]; [|discriminate].
  left. now apply mystem_features_raises in H.
Qed.

Lemma advanced_classify_raises (self : AdvancedMorphologicalAnalysisPipeline.t) entry e :
  AdvancedMorphologicalAnalysisPipeline.classify self entry = Raises e ->
  e = IndexError \/ e = KeyError \/ e = TypeError.
Proof.
  unfold AdvancedMorphologicalAnalysisPipeline.classify.
  destruct (Mystem.analysis entry) as [[|best rest]|];
    try (destruct (isdigit (Mystem.text entry)); discriminate).
  intros H. apply bind_raises in H as [H | (p & _ & H)].
  { right. now apply mystem_pos_raises in H. }
  destruct (str_eqb p (lit "NOUN")).
  - unfold AdvancedMorphologicalAnalysisPipeline.escalate in H.
    apply bind_raises in H as [H | (c1 & _ & H)];
      [left; now apply getitem_raises in H|].
    apply bind_raises in H as [H | (c2 & _ & H)];
      [left; now apply getitem_raises in H|].
    right. left.
    apply bind_raises in H as [H | (p' & _ & H)]; [now apply opencorpora_pos_raises in H|].
    apply bind_raises in H as [H | (t & _ & H)]; [|discriminate].
    now apply opencorpora_features_raises in H.
  - apply bind_raises in H as [H | (t & _ & H)]; [|discriminate].
    right. left. now apply mystem_features_raises in H.
Qed.

Lemma sentences_loop_raises_only classify (result : list Mystem.Entry)
    (Q : exn -> Prop) :
  Q IndexError ->
  (forall entry e, classify entry = Raises e -> Q e) ->
  forall sentences ind acc c e,
    sentences_loop classify result sentences ind acc c = Raises e -> Q e.
Proof.
  intros Hi Hc.
  assert (G : forall words i tokens c e,
             words_loop classify result words i tokens c = Raises e -> Q e).
  { induction words as [|w words IH]; intros i tokens c e H; [discriminate|].
    rewrite words_loop_cons in H.
    apply bind_raises in H as [H | ([e1 c1] & _ & H)].
    - apply take_entry_raises in H. now subst.
    - apply bind_raises in H as [H | (d & _ & H)]; [now apply Hc in H | now apply IH in H]. }
  induction sentences as [|s sentences IH]; intros ind acc c e H; [discriminate|].
  cbn [sentences_loop] in H.
  apply bind_raises in H as [H | ([tokens c'] & _ & H)]; [now apply G in H | now apply IH in H].
Qed.
End Exceptions.

(** X6.  The only exceptions [_process] raises are [IndexError] (the stream is
    exhausted, or pymorphy2 returned no parse), [KeyError] (a tag or a
    category missing from a mapping) and [TypeError] (a Mystem tag string
    that does not start with a word character). *)
Theorem process_raises_only :
  forall {U : Unicode} {C : CoreUtils},
    (forall (self : MorphologicalAnalysisPipeline.t) text e,
       MorphologicalAnalysisPipeline._process self text = Raises e ->
       e = IndexError \/ e = KeyError \/ e = TypeError)
    /\ (forall (self : AdvancedMorphologicalAnalysisPipeline.t) text e,
          AdvancedMorphologicalAnalysisPipeline._process self text = Raises e ->
          e = IndexError \/ e = KeyError \/ e = TypeError).
Proof.
  intros U C. split; intros self text e H.
  - apply (sentences_loop_raises_only _ _
             (fun e => e = IndexError \/ e = KeyError \/ e = TypeError)) in H;
      [exact H | now left |].
    intros entry e' He. right. now apply basic_classify_raises in He.
  - apply (sentences_loop_raises_only _ _
             (fun e => e = IndexError \/ e = KeyError \/ e = TypeError)) in H;
      [exact H | now left |].
    intros entry e' He. now apply advanced_classify_raises in He.
Qed.

Lemma process_raises_only_witness :
  IndexError = IndexError \/ IndexError = KeyError \/ IndexError = TypeError.
Proof.
  apply (proj1 process_raises_only (pipeline two_entries) (lit "Кот 42 сидит.")).
  vm_compute. reflexivity.
Defined.

(** ** What the converters put in the feature dictionary *)

Section Provenance.
Context {U : Unicode}.

Lemma assign_tag_origin (self : TagConverter.t) (tag : str) (cats : list str) :
  forall ud ud' k v,
    MystemTagConverter.assign_tag self tag cats ud = Returns ud' ->
    dict_get ud' k = Some v ->
    dict_get ud k = Some v \/ (In k cats /\ mapped self k tag = Some v).
Proof.
  induction cats as [|c cats IH]; intros ud ud' k v H Hk; simpl in H.
  - injection H as <-. now left.
  - apply bind_returns in H as (entries & He & H). apply lookup_returns in He.
    destruct (dict_mem entries tag && negb (dict_mem ud c)).
    + apply bind_returns in H as (v' & Hv & H). apply lookup_returns in Hv.
      injection H as <-.
      destruct (list_eq_dec N.eq_dec c k) as [-> | Hne].
      * rewrite dict_get_set_same in Hk. injection Hk as ->. right.
        split; [now left|]. unfold mapped. now rewrite He.
      * rewrite (dict_get_set_other _ _ _ _ Hne) in Hk. now left.
    + destruct (IH _ _ _ _ H Hk) as [Hold | [Hin Hm]]; [now left|].
      right. split; [now right | exact Hm].
Qed.

Lemma assign_tags_origin (self : TagConverter.t) (extracted : list str) :
  forall ud ud' k v,
    MystemTagConverter.assign_tags self extracted ud = Returns ud' ->
    dict_get ud' k = Some v ->
    dict_get ud k = Some v
    \/ (In k (MystemTagConverter.categories self)
        /\ exists tag, In tag extracted /\ mapped self k tag = Some v).
Proof.
  induction extracted as [|tag extracted IH]; intros ud ud' k v H Hk.
  - simpl in H. injection H as <-. now left.
  - cbn [MystemTagConverter.assign_tags] in H.
    apply bind_returns in H as (ud1 & H1 & H).
    destruct (IH _ _ _ _ H Hk) as [Hold | (Hin & tag' & Ht & Hm)].
    + destruct (assign_tag_origin _ _ _ _ _ _ _ H1 Hold) as [Hold' | [Hin Hm]];
        [now left|].
      right. split; [exact Hin|]. exists tag. split; [now left | exact Hm].
    + right. split; [exact Hin|]. exists tag'. split; [now right | exact Hm].
Qed.

Lemma findall_from_none (p : char -> bool) (s cur : str) :
  forallb (fun c => negb (p c)) s = true -> findall_from p s cur = flush cur.
Proof.
  revert cur. induction s as [|c s IH]; intros cur H; simpl in *; [reflexivity|].
  apply andb_true_iff in H as [Hc H]. apply negb_true_iff in Hc. rewrite Hc.
  rewrite (IH [] H). simpl. apply app_nil_r.
Qed.
End Provenance.

(** X7.  Every feature the Mystem converter extracts is licensed by the mapping:
    its key is one of the five category names and its value is what the
    mapping gives, under that category, for a run of lowercase Cyrillic
    letters that occurs in the tag string. *)
Theorem mystem_features_from_mapping :
  forall {U : Unicode} (self : TagConverter.t) (tags : str) (ud_tags : dict str),
    MystemTagConverter.ud_tags_of self tags = Returns ud_tags ->
    forall k v,
      dict_get ud_tags k = Some v ->
      In k (MystemTagConverter.categories self)
      /\ exists marker,
           In marker (findall MystemTagConverter.is_a_ya tags)
           /\ mapped self k marker = Some v.
Proof.
  intros U self tags ud H k v Hk.
  destruct (assign_tags_origin _ _ _ _ _ _ H Hk) as [Hold | Hnew];
    [discriminate | exact Hnew].
Qed.

Lemma mystem_features_from_mapping_witness :
  In (lit "Number") (MystemTagConverter.categories mystem_converter)
  /\ exists marker,
       In marker (findall MystemTagConverter.is_a_ya (lit "V,несов,нп=непрош,ед,изъяв,3-л"))
       /\ mapped mystem_converter (lit "Number") marker = Some (lit "Sing").
Proof.
  apply (mystem_features_from_mapping mystem_converter
           (lit "V,несов,нп=непрош,ед,изъяв,3-л")
           [(lit "Tense", lit "Pres"); (lit "Number", lit "Sing")]);
    vm_compute; reflexivity.
Defined.

(** X8.  A Mystem tag string without any lowercase Cyrillic letter (a bare part
    of speech, for instance) has no features: the conversion returns the
    empty string whatever the mapping holds, even one without the feature
    categories. *)
Theorem mystem_no_markers_no_features :
  forall {U : Unicode} (self : TagConverter.t) (tags : str),
    forallb (fun c => negb (MystemTagConverter.is_a_ya c)) tags = true ->
    MystemTagConverter.convert_morphological_tags self tags = Returns [].
Proof.
  intros U self tags H.
  unfold MystemTagConverter.convert_morphological_tags, MystemTagConverter.ud_tags_of,
    findall.
  now rewrite (findall_from_none _ _ _ H).
Qed.

Lemma mystem_no_markers_no_features_witness :
  MystemTagConverter.convert_morphological_tags (converter []) (lit "ADV=") = Returns [].
Proof.
  apply (mystem_no_markers_no_features (converter []) (lit "ADV=")).
  vm_compute. reflexivity.
Defined.

Section OpenCorporaFill.
Context {U : Unicode}.

Lemma fill_returns_iff (self : TagConverter.t) (l : list (str * option str)) :
  forall ud,
    (exists ud', OpenCorporaTagConverter.fill self l ud = Returns ud')
    <-> (forall k v, In (k, Some v) l -> mapped self k v <> None).
Proof.
  induction l as [|[k [v|]] l IH]; intros ud; simpl.
  - split; [intros _ k v [] | intros _; now exists ud].
  - unfold lookup at 1.
    destruct (dict_get (TagConverter._tag_mapping self) k) as [entries|] eqn:Ek; simpl.
    + unfold lookup at 1. destruct (dict_get entries v) as [v'|] eqn:Ev; simpl.
      * rewrite IH. split.
        -- intros H k0 v0 [E | Hin]; [|now apply H].
           injection E as <- <-. unfold mapped. rewrite Ek, Ev. discriminate.
        -- intros H k0 v0 Hin. apply H. now right.
      * split; [intros [ud' H]; discriminate|].
        intros H. exfalso. apply (H k v); [now left|]. unfold mapped. now rewrite Ek.
    + split; [intros [ud' H]; discriminate|].
      intros H. exfalso. apply (H k v); [now left|]. unfold mapped. now rewrite Ek.
  - rewrite IH. split.
    + intros H k0 v0 [E | Hin]; [discriminate | now apply H].
    + intros H k0 v0 Hin. apply H. now right.
Qed.

Lemma fill_items (self : TagConverter.t) (l : list (str * option str)) :
  forall ud ud',
    OpenCorporaTagConverter.fill self l ud = Returns ud' ->
    StronglySorted str_lt (keys ud ++ map fst l) ->
    keys ud' = keys ud
               ++ map fst (filter (fun kv => match snd kv with
                                             | Some _ => true
                                             | None => false
                                             end) l)
    /\ (forall k v, In (k, Some v) l -> dict_get ud' k = mapped self k v)
    /\ (forall k, In k (keys ud) -> dict_get ud' k = dict_get ud k).
Proof.
  induction l as [|[k [v|]] l IH]; intros ud ud' H Hs; simpl in H.
  - injection H as <-. simpl. rewrite app_nil_r. repeat split. intros k v [].
  - simpl in Hs.
    apply bind_returns in H as (entries & He & H). apply lookup_returns in He.
    apply bind_returns in H as (v' & Hv & H). apply lookup_returns in Hv.
    pose proof (strongly_sorted_fresh _ _ _ Hs) as Hfresh.
    assert (Hkeys : keys (dict_set ud k v') = keys ud ++ [k]).
    { rewrite keys_set. unfold dict_mem.
      apply dict_get_keys in Hfresh. now rewrite Hfresh. }
    apply IH in H as (Hk & Hm & Hold); [|rewrite Hkeys, <- app_assoc; exact Hs].
    split; [|split].
    + simpl. rewrite Hk, Hkeys, <- app_assoc. reflexivity.
    + intros k0 v0 [E | Hin]; [|now apply Hm].
      injection E as <- <-. rewrite Hold; [|rewrite Hkeys, in_app_iff; right; now left].
      rewrite dict_get_set_same. unfold mapped. now rewrite He, Hv.
    + intros k0 Hin. rewrite Hold; [|rewrite Hkeys, in_app_iff; now left].
      apply dict_get_set_other. intros ->. contradiction.
  - simpl in Hs. apply strongly_sorted_remove in Hs.
    apply IH in H as (Hk & Hm & Hold); [|exact Hs].
    split; [exact Hk|]. split; [|exact Hold].
    intros k0 v0 [E | Hin]; [discriminate | now apply Hm].
Qed.
End OpenCorporaFill.

(** X9.  The OpenCorpora conversion of features returns exactly when every field
    of the tag that is set (among animacy, case, gender, number) has an entry
    in the mapping under its category, and otherwise raises [KeyError]; a
    tag with no field set therefore always converts. *)
Theorem opencorpora_features_return_iff_mapped :
  forall {U : Unicode} (self : TagConverter.t) (tags : OpencorporaTag.t),
    ((exists s, OpenCorporaTagConverter.convert_morphological_tags self tags = Returns s)
     <-> fields_mapped self tags)
    /\ (~ fields_mapped self tags ->
        OpenCorporaTagConverter.convert_morphological_tags self tags = Raises KeyError).
Proof.
  intros U self tags.
  assert (G : (exists s, OpenCorporaTagConverter.convert_morphological_tags self tags
                         = Returns s) <-> fields_mapped self tags).
  { unfold fields_mapped. rewrite <- (fill_returns_iff self _ []).
    unfold OpenCorporaTagConverter.convert_morphological_tags,
      OpenCorporaTagConverter.ud_tags_of.
    split.
    - intros [s H]. apply bind_returns in H as (ud & Hud & _). now exists ud.
    - intros [ud H]. rewrite H. simpl. eauto. }
  split; [exact G|]. intros Hn.
  destruct (OpenCorporaTagConverter.convert_morphological_tags self tags) as [s|e] eqn:E.
  - exfalso. apply Hn, G. now exists s.
  - now rewrite (opencorpora_features_raises _ _ _ E).
Qed.

Lemma opencorpora_features_return_iff_mapped_witness :
  OpenCorporaTagConverter.convert_morphological_tags opencorpora_converter
    (OpencorporaTag.make (Some (lit "NOUN")) None (Some (lit "voct")) None None)
  = Raises KeyError.
Proof.
  apply (proj2 (opencorpora_features_return_iff_mapped opencorpora_converter _)).
  intros H. apply (H (lit "Case") (lit "voct")); [right; left; reflexivity|].
  vm_compute. reflexivity.
Defined.

(** X10.  With category names in alphabetical order, the dictionary the OpenCorpora
    converter builds has one item for each field of the tag that is set, in
    the order animacy, case, gender, number, and none for a field that is
    [None]; each value is the mapping's entry for the field's value. *)
Theorem opencorpora_features_are_set_fields :
  forall {U : Unicode} (self : TagConverter.t) (tags : OpencorporaTag.t)
         (ud_tags : dict str),
    alphabetical_names self ->
    OpenCorporaTagConverter.ud_tags_of self tags = Returns ud_tags ->
    keys ud_tags = map fst (set_fields self tags)
    /\ forall k v, In (k, Some v) (OpenCorporaTagConverter.lst self tags) ->
         dict_get ud_tags k = mapped self k v.
Proof.
  intros U self tags ud (H1 & H2 & H3) H.
  apply fill_items in H as (Hk & Hm & _).
  - split; [exact Hk | exact Hm].
  - simpl.
    pose proof (str_ltb_trans _ _ _ H1 H2) as H12.
    pose proof (str_ltb_trans _ _ _ H2 H3) as H23.
    pose proof (str_ltb_trans _ _ _ H1 H23) as H13.
    repeat constructor; assumption.
Qed.

Lemma opencorpora_features_are_set_fields_witness :
  keys [(lit "Case", lit "Gen"); (lit "Number", lit "Plur")]
  = map fst (set_fields opencorpora_converter
               (OpencorporaTag.make None None (Some (lit "gent")) None (Some (lit "plur")))).
Proof.
  apply (opencorpora_features_are_set_fields opencorpora_converter
           (OpencorporaTag.make None None (Some (lit "gent")) None (Some (lit "plur")))
           [(lit "Case", lit "Gen"); (lit "Number", lit "Plur")]
           (fixture_names_alphabetical _)).
  vm_compute. reflexivity.
Defined.

(** ** The cleaned sentence *)

Section CleanedSentence.
Context {U : Unicode}.

Lemma drop_while_app (p : char -> bool) (x y : str) :
  drop_while p (x ++ y) = if forallb p x then drop_while p y else drop_while p x ++ y.
Proof.
  induction x as [|c x IH]; simpl; [reflexivity|].
  destruct (p c); simpl; [exact IH | reflexivity].
Qed.

Lemma strip_app_space (x : str) :
  isspace_c 32%N = true -> strip (x ++ [32%N]) = strip x.
Proof.
  intros Hsp. unfold strip, lstrip. rewrite drop_while_app.
  destruct (forallb isspace_c x) eqn:E.
  - simpl. rewrite Hsp.
    replace (drop_while isspace_c x) with (@nil char); [reflexivity|].
    clear Hsp. induction x as [|c x IH]; simpl in *; [reflexivity|].
    apply andb_true_iff in E as [Hc E]. rewrite Hc. now apply IH.
  - unfold rstrip. rewrite rev_app_distr. simpl. now rewrite Hsp.
Qed.

Lemma sub_from_app_space (s : str) :
  forall in_run,
    exists t, (t = [] \/ t = [32%N])
              /\ sub_from isspace_c (lit " ") (s ++ [32%N]) in_run
                 = sub_from isspace_c (lit " ") s in_run ++ t.
Proof.
  induction s as [|c s IH]; intros in_run; simpl.
  - destruct (isspace_c 32%N) eqn:Hsp.
    + destruct in_run; [exists []; auto | exists [32%N]; auto].
    + exists [32%N]. auto.
  - destruct (isspace_c c).
    + destruct (IH true) as (t & Ht & ->). exists t. split; [exact Ht|].
      now rewrite app_assoc.
    + destruct (IH false) as (t & Ht & ->). exists t. now split.
Qed.

Lemma join_snoc_empty (parts : list str) :
  join (lit " ") (parts ++ [[]])
  = match parts with [] => [] | _ => join (lit " ") parts ++ [32%N] end.
Proof.
  induction parts as [|p parts IH]; [reflexivity|].
  destruct parts as [|q parts]; [reflexivity|].
  change (join (lit " ") ((p :: q :: parts) ++ [[]]))
    with (p ++ lit " " ++ join (lit " ") ((q :: parts) ++ [[]])).
  rewrite IH.
  change (join (lit " ") (p :: q :: parts))
    with (p ++ lit " " ++ join (lit " ") (q :: parts)).
  now rewrite <- !app_assoc.
Qed.

Lemma cleaned_sentence_snoc_empty (position : nat) (text : str)
    (tokens : list ConlluToken.t) (last : ConlluToken.t) :
  isspace_c 32%N = true ->
  ConlluToken.get_cleaned last = [] ->
  ConlluSentence.get_cleaned_sentence (ConlluSentence.make position text (tokens ++ [last]))
  = ConlluSentence.get_cleaned_sentence (ConlluSentence.make position text tokens).
Proof.
  intros Hsp Hlast. unfold ConlluSentence.get_cleaned_sentence. simpl.
  rewrite map_app. simpl. rewrite Hlast, join_snoc_empty.
  destruct (map ConlluToken.get_cleaned tokens) as [|p parts] eqn:E; [reflexivity|].
  unfold re_sub.
  destruct (sub_from_app_space (join (lit " ") (p :: parts)) false) as (t & [-> | ->] & ->).
  - now rewrite app_nil_r.
  - now apply strip_app_space.
Qed.
End CleanedSentence.

(** X11.  The cleaned sentence is whitespace-normalised: it neither starts nor ends
    with whitespace, and every whitespace character in it is a single space
    followed by a character that is not whitespace. *)
Theorem cleaned_sentence_normalised :
  forall {U : Unicode} (sentence : ConlluSentence.t),
    isspace_c 32%N = true ->
    head_nonspace (ConlluSentence.get_cleaned_sentence sentence) = true
    /\ head_nonspace (rev (ConlluSentence.get_cleaned_sentence sentence)) = true
    /\ collapsed (ConlluSentence.get_cleaned_sentence sentence) = true.
Proof.
  intros U sentence Hsp. split; [|split].
  - apply strip_head_nonspace.
  - unfold ConlluSentence.get_cleaned_sentence, strip, rstrip.
    rewrite rev_involutive.
    destruct (drop_while isspace_c _) as [|c r] eqn:E; [reflexivity|].
    simpl. apply negb_true_iff. exact (drop_while_head _ _ _ _ E).
  - now apply get_cleaned_sentence_collapsed.
Qed.

Lemma cleaned_sentence_normalised_witness :
  head_nonspace
    (ConlluSentence.get_cleaned_sentence
       (ConlluSentence.make 0 (lit "- Кот,  сидит.")
          [ConlluToken.init (lit "-"); ConlluToken.init (lit "Кот,");
           ConlluToken.init (lit " "); ConlluToken.init (lit "сидит.")])) = true.
Proof.
  apply (cleaned_sentence_normalised (U := Sample.unicode)
           (ConlluSentence.make 0 (lit "- Кот,  сидит.")
              [ConlluToken.init (lit "-"); ConlluToken.init (lit "Кот,");
               ConlluToken.init (lit " "); ConlluToken.init (lit "сидит.")])
           eq_refl).
Defined.

(** X12.  The terminal token leaves no trace in the cleaned sentence: with a full
    stop that is not a word character and lowercasing that keeps the empty
    string empty, a sentence cleans to the same string with and without the
    terminal token the pipelines append. *)
Theorem terminal_token_cleans_away :
  forall {U : Unicode} (position : nat) (text : str) (tokens : list ConlluToken.t)
         (n : nat),
    isspace_c 32%N = true ->
    isalnum_c 46%N = false ->
    lower [] = [] ->
    ConlluSentence.get_cleaned_sentence
      (ConlluSentence.make position text (tokens ++ [terminal_token n]))
    = ConlluSentence.get_cleaned_sentence (ConlluSentence.make position text tokens).
Proof.
  intros U position text tokens n Hsp Hdot Hlower.
  apply cleaned_sentence_snoc_empty; [exact Hsp|].
  unfold ConlluToken.get_cleaned, re_sub. simpl.
  unfold is_W, is_w. rewrite Hdot. simpl. exact Hlower.
Qed.

Lemma terminal_token_cleans_away_witness :
  ConlluSentence.get_cleaned_sentence
    (ConlluSentence.make 0 (lit "Кот сидит.")
       ([ConlluToken.init (lit "Кот"); ConlluToken.init (lit "сидит")]
        ++ [terminal_token 3]))
  = lit "кот сидит".
Proof.
  rewrite (terminal_token_cleans_away (U := Sample.unicode) 0 (lit "Кот сидит.")
             [ConlluToken.init (lit "Кот"); ConlluToken.init (lit "сидит")] 3
             eq_refl eq_refl eq_refl).
  vm_compute. reflexivity.
Defined.

(** ** What validation accepts and how it fails *)

Lemma nodup_length_le (l : list Z) : List.length (nodup Z.eq_dec l) <= List.length l.
Proof.
  induction l as [|x l IH]; simpl; [lia|].
  destruct (in_dec Z.eq_dec x l); simpl; lia.
Qed.

Lemma nodup_length_NoDup (l : list Z) :
  List.length l = List.length (nodup Z.eq_dec l) -> NoDup l.
Proof.
  induction l as [|x l IH]; simpl; [constructor|].
  pose proof (nodup_length_le l) as Hle.
  destruct (in_dec Z.eq_dec x l) as [Hin | Hnin]; simpl; intros H; [lia|].
  constructor; [exact Hnin | apply IH; lia].
Qed.

Section Validation.
Context {U : Unicode}.

Lemma int_of_digits (d : str) :
  digits_apart -> d <> [] -> forallb is_d d = true ->
  int d = Returns (Z.of_N (digits_value d 0)).
Proof.
  intros Ha Hne Hd.
  pose proof (digits_not_int_space d Ha Hd) as Hns.
  destruct Ha as (H95 & H43 & H45 & Hsp).
  unfold int. rewrite <- (app_nil_r d) at 1.
  rewrite (int_strip_digits _ _ Hns Hne). simpl rev. simpl drop_while. simpl rev.
  rewrite app_nil_r.
  destruct d as [|c d]; [contradiction|].
  simpl in Hd. apply andb_true_iff in Hd as [Hc Hd'].
  assert (E43 : N.eqb c 43 = false).
  { apply N.eqb_neq. intros ->. unfold is_d in Hc. now rewrite H43 in Hc. }
  assert (E45 : N.eqb c 45 = false).
  { apply N.eqb_neq. intros ->. unfold is_d in Hc. now rewrite H45 in Hc. }
  cbn [int_signed]. rewrite E43, E45.
  rewrite <- (app_nil_r (c :: d)) at 1.
  rewrite int_digits_app by (simpl; now rewrite Hc, Hd').
  reflexivity.
Qed.

Lemma id_by_match_total (file : CorpusManager.File) :
  digits_apart ->
  match re_match is_d (CorpusManager.name file) with
  | Some _ => CorpusManager.id_by_match file = Returns (leading_id file)
  | None => CorpusManager.id_by_match file = Raises TypeError
  end.
Proof.
  intros Ha. unfold CorpusManager.id_by_match, re_match, leading_id.
  destruct (take_while is_d (CorpusManager.name file)) as [|c d] eqn:E; [reflexivity|].
  cbn [bind subscript_match]. apply (int_of_digits _ Ha); [discriminate|].
  rewrite <- E. apply take_while_all.
Qed.

Lemma comprehension_first_failure {A B} (f : A -> Py B) (l : list A) (e : exn) :
  (forall x, In x l -> (exists y, f x = Returns y) \/ f x = Raises e) ->
  (exists x, In x l /\ f x = Raises e) ->
  comprehension f l = Raises e.
Proof.
  induction l as [|x l IH]; intros Hall (x0 & Hin & Hx0); [destruct Hin|].
  simpl. destruct (Hall x (or_introl eq_refl)) as [[y Hy] | Hx].
  - rewrite Hy. simpl. rewrite IH; [reflexivity | |].
    + intros x' Hx'. apply Hall. now right.
    + destruct Hin as [-> | Hin]; [congruence|]. now exists x0.
  - now rewrite Hx.
Qed.
End Validation.

(** X13.  When [_validate_dataset] returns, the path exists and is a directory,
    there is at least one raw file and as many meta files, the numbers that
    the names of the meta files start with are 1..n in some order, so are
    those of the raw files (read either way), and no raw file is empty. *)
Theorem validated_dataset_is_consistent :
  forall {U : Unicode} (path : CorpusManager.Path),
    CorpusManager._validate_dataset path = Returns tt ->
    valid_dataset path.
Proof.
  intros U path H. unfold CorpusManager._validate_dataset in H.
  apply bind_returns in H as (? & Hex & H). apply raise_if_returns, negb_false_iff in Hex.
  apply bind_returns in H as (? & Hdir & H). apply raise_if_returns, negb_false_iff in Hdir.
  apply bind_returns in H as (metas & Hmetas & H).
  apply bind_returns in H as (? & Hmo & H).
  apply raise_if_returns, negb_false_iff, ints_eqb_eq in Hmo.
  apply bind_returns in H as (raws & Hraws & H).
  apply bind_returns in H as (? & Hro & H).
  apply raise_if_returns, negb_false_iff, ints_eqb_eq in Hro.
  apply bind_returns in H as (? & Hlen & H).
  apply raise_if_returns, negb_false_iff, Nat.eqb_eq in Hlen.
  apply bind_returns in H as (? & Hempty & H). apply raise_if_returns in Hempty.
  apply bind_returns in H as (file_ids & Hids & H).
  apply bind_returns in H as (? & Hdup & H). apply raise_if_returns in H.
  unfold valid_dataset. repeat split; try assumption.
  - intros E. rewrite E in Hempty.
    destruct (CorpusManager.glob path (lit "_meta.json")); discriminate.
  - exists metas. split; [exact Hmetas|].
    rewrite <- Hmo. apply Permutation_sym, sorted_ints_perm.
  - exists raws, file_ids. split; [exact Hraws|]. split; [|split; [exact Hids|]].
    + rewrite <- Hro. apply Permutation_sym, sorted_ints_perm.
    + match goal with
      | Hdup : CorpusManager.raise_if (negb (Nat.eqb _ _)) _ = Returns _ |- _ =>
          apply raise_if_returns, negb_false_iff, Nat.eqb_eq in Hdup;
          exact (nodup_length_NoDup _ Hdup)
      end.
  - apply Forall_forall. intros file Hin Hz.
    destruct (filter _ _) as [|f fs] eqn:E in H; [|discriminate].
    assert (Hf : In file (filter (fun file => N.eqb (CorpusManager.st_size file) 0)
                            (CorpusManager.glob path (lit "_raw.txt")))).
    { apply filter_In. split; [exact Hin | now apply N.eqb_eq]. }
    rewrite E in Hf. destruct Hf.
Qed.

Lemma validated_dataset_is_consistent_witness : valid_dataset corpus.
Proof.
  apply (validated_dataset_is_consistent corpus). vm_compute. reflexivity.
Defined.

Section ValidationErrors.
Context {U : Unicode}.

Lemma id_by_match_raises (file : CorpusManager.File) (e : exn) :
  CorpusManager.id_by_match file = Raises e -> e = TypeError \/ e = ValueError.
Proof.
  unfold CorpusManager.id_by_match. intros H.
  apply bind_raises in H as [H | (d & _ & H)].
  - left. destruct (re_match is_d (CorpusManager.name file)); [discriminate|].
    now injection H as <-.
  - right. unfold int in H. destruct (int_signed (int_strip d)); [discriminate|].
    now injection H as <-.
Qed.

Lemma id_by_split_raises (file : CorpusManager.File) (e : exn) :
  CorpusManager.id_by_split file = Raises e -> e = ValueError.
Proof.
  unfold CorpusManager.id_by_split, int.
  destruct (int_signed _); [discriminate | now intros [= <-]].
Qed.

Lemma forall2_in {A B} (R : A -> B -> Prop) (l : list A) (ys : list B) (x : A) :
  Forall2 R l ys -> In x l -> exists y, R x y.
Proof.
  intros H. induction H as [|a b l ys Hab _ IH]; intros Hin; [destruct Hin|].
  destruct Hin as [<- | Hin]; [now exists b | now apply IH].
Qed.
End ValidationErrors.

(** X14.  [_validate_dataset] raises [EmptyDirectoryError] exactly for an existing
    directory that holds neither a file ending in "_meta.json" nor one ending
    in "_raw.txt"; with files of one kind only it raises another error. *)
Theorem empty_directory_error_iff :
  forall {U : Unicode} (path : CorpusManager.Path),
    CorpusManager._validate_dataset path = Raises EmptyDirectoryError
    <-> (CorpusManager.exists_ path = true
         /\ CorpusManager.is_dir path = true
         /\ CorpusManager.glob path (lit "_meta.json") = []
         /\ CorpusManager.glob path (lit "_raw.txt") = []).
Proof.
  intros U path. unfold CorpusManager._validate_dataset. split.
  - intros H.
    apply bind_raises in H as [H | (? & Hex & H)]; [apply raise_if_raises in H; discriminate|].
    apply raise_if_returns, negb_false_iff in Hex.
    apply bind_raises in H as [H | (? & Hdir & H)]; [apply raise_if_raises in H; discriminate|].
    apply raise_if_returns, negb_false_iff in Hdir.
    apply bind_raises in H as [H | (metas & _ & H)].
    { apply comprehension_raises in H as (f & _ & H).
      apply id_by_match_raises in H as [H | H]; discriminate. }
    apply bind_raises in H as [H | (? & _ & H)]; [apply raise_if_raises in H; discriminate|].
    apply bind_raises in H as [H | (raws & _ & H)].
    { apply comprehension_raises in H as (f & _ & H).
      apply id_by_match_raises in H as [H | H]; discriminate. }
    apply bind_raises in H as [H | (? & _ & H)]; [apply raise_if_raises in H; discriminate|].
    apply bind_raises in H as [H | (? & Hlen & H)]; [apply raise_if_raises in H; discriminate|].
    apply raise_if_returns, negb_false_iff, Nat.eqb_eq in Hlen.
    apply bind_raises in H as [H | (? & Hne & H)].
    { repeat split; try assumption;
        destruct (CorpusManager.glob path (lit "_meta.json")),
                 (CorpusManager.glob path (lit "_raw.txt"));
        simpl in *; try reflexivity; discriminate. }
    apply bind_raises in H as [H | (ids & _ & H)].
    { apply comprehension_raises in H as (f & _ & H).
      apply id_by_split_raises in H. discriminate. }
    apply bind_raises in H as [H | (? & _ & H)]; apply raise_if_raises in H; discriminate.
  - intros (Hex & Hdir & Hm & Hr). rewrite Hex, Hdir, Hm, Hr. reflexivity.
Qed.

Lemma empty_directory_error_iff_witness :
  CorpusManager._validate_dataset empty_directory = Raises EmptyDirectoryError.
Proof.
  apply (proj2 (empty_directory_error_iff empty_directory)).
  repeat split.
Defined.

(** X15.  A file ending in "_meta.json" whose name does not start with a decimal
    digit makes [_validate_dataset] raise [TypeError] (the subscript of the
    failed [re.match]) rather than one of the dataset errors; so does such a
    file ending in "_raw.txt" once the meta files have passed their check. *)
Theorem unnumbered_file_raises_type_error :
  forall {U : Unicode} (path : CorpusManager.Path),
    digits_apart ->
    CorpusManager.exists_ path = true ->
    CorpusManager.is_dir path = true ->
    ((exists file, In file (CorpusManager.glob path (lit "_meta.json"))
                   /\ re_match is_d (CorpusManager.name file) = None) ->
     CorpusManager._validate_dataset path = Raises TypeError)
    /\ (forall metas,
          comprehension CorpusManager.id_by_match (CorpusManager.glob path (lit "_meta.json"))
            = Returns metas ->
          sorted_ints metas
            = range1 (List.length (CorpusManager.glob path (lit "_meta.json"))) ->
          (exists file, In file (CorpusManager.glob path (lit "_raw.txt"))
                        /\ re_match is_d (CorpusManager.name file) = None) ->
          CorpusManager._validate_dataset path = Raises TypeError).
Proof.
  intros U path Ha Hex Hdir.
  assert (G : forall files,
             (exists file, In file files /\ re_match is_d (CorpusManager.name file) = None) ->
             comprehension CorpusManager.id_by_match files = Raises TypeError).
  { intros files (file & Hin & Hnone). apply comprehension_first_failure.
    - intros x _. pose proof (id_by_match_total x Ha) as Hx.
      destruct (re_match is_d (CorpusManager.name x)); [left; eauto | now right].
    - exists file. split; [exact Hin|].
      pose proof (id_by_match_total file Ha) as Hf. now rewrite Hnone in Hf. }
  unfold CorpusManager._validate_dataset. rewrite Hex, Hdir. split.
  - intros Hbad. cbn [negb CorpusManager.raise_if bind]. now rewrite (G _ Hbad).
  - intros metas Hmetas Hmo Hbad. cbn [negb CorpusManager.raise_if bind].
    rewrite Hmetas. cbn [bind]. rewrite Hmo.
    replace (ints_eqb _ _) with true.
    + cbn [negb CorpusManager.raise_if bind]. now rewrite (G _ Hbad).
    + symmetry. generalize (range1 (List.length (CorpusManager.glob path (lit "_meta.json")))).
      intros l. induction l as [|z l IH]; simpl; [reflexivity|].
      now rewrite Z.eqb_refl, IH.
Qed.

Lemma unnumbered_file_raises_type_error_witness :
  CorpusManager._validate_dataset corpus_named = Raises TypeError.
Proof.
  apply (proj1 (unnumbered_file_raises_type_error corpus_named sample_digits_apart
                  eq_refl eq_refl)).
  exists (file "draft_meta.json" 64). split; [right; left|]; reflexivity.
Defined.

(** X16.  [_validate_dataset] can raise [ValueError] in one place only: every file
    has passed the contiguity checks, and the name of some raw file starts
    with digits but its part before the first underscore is no integer
    literal (as in "1a_raw.txt"). *)
Theorem value_error_comes_from_split :
  forall {U : Unicode} (path : CorpusManager.Path),
    digits_apart ->
    CorpusManager._validate_dataset path = Raises ValueError ->
    exists file,
      In file (CorpusManager.glob path (lit "_raw.txt"))
      /\ CorpusManager.id_by_match file = Returns (leading_id file)
      /\ CorpusManager.id_by_split file = Raises ValueError.
Proof.
  intros U path Ha H. unfold CorpusManager._validate_dataset in H.
  assert (G : forall files,
             comprehension CorpusManager.id_by_match files <> Raises ValueError).
  { intros files Hf. apply comprehension_raises in Hf as (f & _ & Hf).
    pose proof (id_by_match_total f Ha) as Ht.
    destruct (re_match is_d (CorpusManager.name f)); congruence. }
  apply bind_raises in H as [H | (? & _ & H)]; [apply raise_if_raises in H; discriminate|].
  apply bind_raises in H as [H | (? & _ & H)]; [apply raise_if_raises in H; discriminate|].
  apply bind_raises in H as [H | (metas & _ & H)]; [now apply G in H|].
  apply bind_raises in H as [H | (? & _ & H)]; [apply raise_if_raises in H; discriminate|].
  apply bind_raises in H as [H | (raws & Hraws & H)]; [now apply G in H|].
  apply bind_raises in H as [H | (? & _ & H)]; [apply raise_if_raises in H; discriminate|].
  apply bind_raises in H as [H | (? & _ & H)]; [apply raise_if_raises in H; discriminate|].
  apply bind_raises in H as [H | (? & _ & H)]; [apply raise_if_raises in H; discriminate|].
  apply bind_raises in H as [H | (ids & _ & H)].
  - apply comprehension_raises in H as (f & Hin & Hf). exists f.
    split; [exact Hin|]. split; [|exact Hf].
    apply comprehension_returns in Hraws.
    destruct (forall2_in _ _ _ f Hraws Hin) as [y Hy].
    pose proof (id_by_match_total f Ha) as Ht.
    destruct (re_match is_d (CorpusManager.name f)); congruence.
  - apply bind_raises in H as [H | (? & _ & H)]; apply raise_if_raises in H; discriminate.
Qed.

Lemma value_error_comes_from_split_witness :
  exists file,
    In file (CorpusManager.glob corpus_1a (lit "_raw.txt"))
    /\ CorpusManager.id_by_match file = Returns (leading_id file)
    /\ CorpusManager.id_by_split file = Raises ValueError.
Proof.
  apply (value_error_comes_from_split corpus_1a sample_digits_apart).
  vm_compute. reflexivity.
Defined.

(** ** Running over the corpus *)

Lemma run_loop_stops (process : str -> Py (list ConlluSentence.t))
    (outputs : Article.t -> list Call) (before : list Article.t)
    (article : Article.t) (after : list Article.t) (e : exn) :
  (forall a, In a before -> exists s, process (Article.get_raw_text a) = Returns s) ->
  process (Article.get_raw_text article) = Raises e ->
  run_loop process outputs (before ++ article :: after)
    = (fst (run_loop process outputs before), Raises e)
  /\ snd (run_loop process outputs before) = Returns tt.
Proof.
  intros Hok Hbad. induction before as [|a before IH]; simpl.
  - now rewrite Hbad.
  - destruct (Hok a (or_introl eq_refl)) as [s Hs]. rewrite Hs.
    destruct IH as [IH1 IH2]; [intros a' Ha'; apply Hok; now right|].
    rewrite IH1.
    destruct (run_loop process outputs before) as [calls outcome]. simpl in *.
    split; [now rewrite app_nil_r || reflexivity | exact IH2].
Qed.

Lemma run_loop_calls (process : str -> Py (list ConlluSentence.t))
    (outputs : Article.t -> list Call) (per_article : nat) (articles : list Article.t) :
  (forall a, List.length (outputs a) = per_article) ->
  (forall a, In a articles -> exists s, process (Article.get_raw_text a) = Returns s) ->
  List.length (fst (run_loop process outputs articles)) = per_article * List.length articles
  /\ snd (run_loop process outputs articles) = Returns tt.
Proof.
  intros Hout Hok. induction articles as [|a articles IH]; simpl.
  - split; [lia | reflexivity].
  - destruct (Hok a (or_introl eq_refl)) as [s Hs]. rewrite Hs.
    destruct IH as [IH1 IH2]; [intros a' Ha'; apply Hok; now right|].
    destruct (run_loop process outputs articles) as [calls outcome]. simpl in *.
    split; [rewrite length_app, Hout, IH1; lia | exact IH2].
Qed.

(** X17.  [run] stops at the first article whose text [_process] fails on: the
    exception leaves [run], the articles before it have had all their output
    calls made exactly as in a run over them alone, and for the failing
    article and every article after it no call is made at all. *)
Theorem run_stops_at_first_failure :
  forall {U : Unicode} {C : CoreUtils},
    (forall (self : MorphologicalAnalysisPipeline.t) before article after e,
       (forall a, In a before ->
          exists s, MorphologicalAnalysisPipeline._process self (Article.get_raw_text a)
                    = Returns s) ->
       MorphologicalAnalysisPipeline._process self (Article.get_raw_text article)
         = Raises e ->
       basic_run self (before ++ article :: after)
         = (fst (basic_run self before), Raises e)
       /\ snd (basic_run self before) = Returns tt)
    /\ (forall (self : AdvancedMorphologicalAnalysisPipeline.t) before article after e,
          (forall a, In a before ->
             exists s, AdvancedMorphologicalAnalysisPipeline._process self
                         (Article.get_raw_text a) = Returns s) ->
          AdvancedMorphologicalAnalysisPipeline._process self (Article.get_raw_text article)
            = Raises e ->
          advanced_run self (before ++ article :: after)
            = (fst (advanced_run self before), Raises e)
          /\ snd (advanced_run self before) = Returns tt).
Proof.
  intros U C. split; intros self before article after e Hok Hbad;
    now apply run_loop_stops.
Qed.

Lemma run_stops_at_first_failure_witness :
  basic_run (pipeline two_entries)
    ([article 1 "Кот 42."] ++ article 2 "Кот 42 сидит." :: [article 3 "Кот."])
  = (fst (basic_run (pipeline two_entries) [article 1 "Кот 42."]), Raises IndexError).
Proof.
  apply (proj1 run_stops_at_first_failure (pipeline two_entries)
           [article 1 "Кот 42."] (article 2 "Кот 42 сидит.") [article 3 "Кот."] IndexError).
  - intros a [<- | []]. eexists. vm_compute. reflexivity.
  - vm_compute. reflexivity.
Defined.

(** X18.  When [_process] succeeds on every article, [run] ends normally after
    three output calls per article in the basic pipeline (cleaned text, and
    CONLL-U without and with morphological tags) and two in the advanced one
    (cleaned text and CONLL-U with pymorphy tags). *)
Theorem run_makes_every_call :
  forall {U : Unicode} {C : CoreUtils},
    (forall (self : MorphologicalAnalysisPipeline.t) articles,
       (forall a, In a articles ->
          exists s, MorphologicalAnalysisPipeline._process self (Article.get_raw_text a)
                    = Returns s) ->
       List.length (fst (basic_run self articles)) = 3 * List.length articles
       /\ snd (basic_run self articles) = Returns tt)
    /\ (forall (self : AdvancedMorphologicalAnalysisPipeline.t) articles,
          (forall a, In a articles ->
             exists s, AdvancedMorphologicalAnalysisPipeline._process self
                         (Article.get_raw_text a) = Returns s) ->
          List.length (fst (advanced_run self articles)) = 2 * List.length articles
          /\ snd (advanced_run self articles) = Returns tt).
Proof.
  intros U C. split; intros self articles Hok;
    apply run_loop_calls; [reflexivity | exact Hok | reflexivity | exact Hok].
Qed.

Lemma run_makes_every_call_witness :
  List.length (fst (basic_run (pipeline cat_sits)
                      [article 1 "Кот сидит."; article 2 "Кот."]))
  = 3 * 2.
Proof.
  apply (proj1 run_makes_every_call (pipeline cat_sits)
           [article 1 "Кот сидит."; article 2 "Кот."]).
  intros a [<- | [<- | []]]; eexists; vm_compute; reflexivity.
Defined.

(** ** The record of a token *)

Lemma count_occ_join (sep : char) (parts : list str) :
  (forall p, In p parts -> count_occ N.eq_dec p sep = 0) ->
  count_occ N.eq_dec (join [sep] parts) sep = List.length parts - 1.
Proof.
  unfold char, str in *.
  induction parts as [|p parts IH]; intros H; [reflexivity|].
  destruct parts as [|q parts].
  - change (join [sep] [p]) with p. now rewrite (H p (or_introl eq_refl)).
  - change (join [sep] (p :: q :: parts)) with (p ++ [sep] ++ join [sep] (q :: parts)).
    rewrite !count_occ_app. unfold char, str in *.
    rewrite (H p (or_introl eq_refl)), IH.
    + simpl. destruct (N.eq_dec sep sep); [lia | contradiction].
    + intros p' Hp'. apply H. now right.
Qed.

Lemma lit_cons_ascii (a : Ascii.ascii) (s : String.string) :
  N.ltb (N_of_ascii a) 128 = true ->
  lit (String a s) = N_of_ascii a :: lit s.
Proof. intros H. unfold lit. simpl. now rewrite H. Qed.

Lemma str_of_nat_tab_free (n : nat) : tab_free (str_of_nat n).
Proof.
  unfold str_of_nat, tab_free. generalize (Nat.to_uint n). intros d.
  induction d as [|d IH|d IH|d IH|d IH|d IH|d IH|d IH|d IH|d IH|d IH];
    [reflexivity|..]; simpl NilEmpty.string_of_uint;
    rewrite lit_cons_ascii by reflexivity; simpl; exact IH.
Qed.

(** X19.  The record of a token has exactly ten tab-separated fields (nine tabs)
    whenever its text, lemma, part of speech and features hold no tab. *)
Theorem token_record_has_nine_tabs :
  forall (token : ConlluToken.t) (include_morphological_tags : bool),
    tab_free (ConlluToken._text token) ->
    tab_free (MorphologicalTokenDTO.lemma (ConlluToken._morphological_parameters token)) ->
    tab_free (MorphologicalTokenDTO.tags (ConlluToken._morphological_parameters token)) ->
    (forall p, MorphologicalTokenDTO.pos (ConlluToken._morphological_parameters token)
               = Some p -> tab_free p) ->
    count_occ N.eq_dec (ConlluToken.get_conllu_text token include_morphological_tags) 9%N
    = 9.
Proof.
  intros token flag Ht Hl Hf Hp.
  unfold ConlluToken.get_conllu_text. rewrite count_occ_join; [reflexivity|].
  unfold ConlluToken.conllu_fields. intros p Hin. simpl in Hin.
  repeat (destruct Hin as [<- | Hin]); try reflexivity; try assumption.
  - unfold ConlluToken.str_position.
    destruct (ConlluToken._position token); [apply str_of_nat_tab_free | reflexivity].
  - destruct (MorphologicalTokenDTO.pos _) as [q|]; [now apply Hp | reflexivity].
  - destruct flag; [|reflexivity].
    destruct (MorphologicalTokenDTO.tags _) eqn:E; [reflexivity | exact Hf].
  - destruct Hin.
Qed.

Lemma token_record_has_nine_tabs_witness :
  count_occ N.eq_dec (ConlluToken.get_conllu_text (terminal_token 3) true) 9%N = 9.
Proof.
  apply (token_record_has_nine_tabs (terminal_token 3) true); try reflexivity.
  intros p [= <-]. reflexivity.
Defined.

(** ** The part of speech of a Mystem tag string *)

Lemma take_while_idem {U : Unicode} (p : char -> bool) (s : str) :
  take_while p (take_while p s) = take_while p s.
Proof.
  induction s as [|c s IH]; simpl; [reflexivity|].
  destruct (p c) eqn:E; simpl; [now rewrite E, IH | reflexivity].
Qed.

(** X20.  The Mystem converter reads the part of speech off the leading run of
    word characters alone: whatever follows the first character that is not
    a word character (the grammatical markers) does not change the result,
    be it a value, a [KeyError] or a [TypeError]. *)
Theorem mystem_pos_reads_leading_word :
  forall {U : Unicode} (self : TagConverter.t) (tags : str),
    MystemTagConverter.convert_pos self tags
    = MystemTagConverter.convert_pos self (take_while is_w tags).
Proof.
  intros U self tags. unfold MystemTagConverter.convert_pos, re_match.
  now rewrite take_while_idem.
Qed.
